(** * kubectl-htpasswd: the credential file of [pkg/htpasswd/cmd.go]

    A shallow embedding of the [passwordFile] type of package [htpasswd]
    (its decoder [newPasswordFile], the operations [ListUsers],
    [DeleteUser], [SetPassword] and the encoder [Bytes]) together with the
    parts of the Go standard library these functions call:
    [strings.Split], [strings.TrimSpace], [crypto/sha1] and
    [encoding/base64].

    Go strings are byte strings: they are modelled by [string], whose
    characters are the 256 values of [ascii]; a [[]byte] is a
    [list byte].  A Go [map[string]string] is a [gmap string string].
    A method that changes its receiver is a function to the new receiver
    and the returned values; a loop over a map depends on the order in
    which Go meets the entries, which is a permutation of the entries.

    The model comes first, package by package; then facts about each
    package; then the properties of the credential file. *)

From Stdlib Require Import ZArith Ascii Strings.Byte FunInd.
From Stdlib Require String.
From stdpp Require Import base option list gmap strings.

Local Open Scope Z_scope.

(** ** Go's [error] values

    Every error of the package is built by [fmt.Errorf]: it is kept as the
    format string together with the arguments it is applied to.  A nil
    [error] is [None]. *)
Record error := Errorf { format : string; args : list string }.

#[global] Instance error_eq_dec : EqDecision error.
Proof. solve_decision. Defined.

(** ** Package [strings] *)
Module gostrings.

(** The bytes of the separators ["\n"] and [":"]. *)
Definition LF : ascii := "010"%char.
Definition colon : ascii := ":"%char.

(** [strings.Split(s, sep)] for a separator of one byte, the only kind
    the package uses (["\n"] and [":"]): cut [s] at each occurrence of
    [sep].  The result has one more element than [s] has separators; in
    particular [Split "" sep] is the one-element slice [[""]]. *)
Fixpoint Split (s : string) (sep : ascii) : list string :=
  match s with
  | EmptyString => [EmptyString]
  | String c s' =>
      if Ascii.eqb c sep then EmptyString :: Split s' sep
      else match Split s' sep with
           | l :: ls => String c l :: ls
           | [] => [String c EmptyString]
           end
  end.

(** The table [asciiSpace] of package [strings]:
    ['\t'], ['\n'], ['\v'], ['\f'], ['\r'] and [' ']. *)
Definition asciiSpace (c : ascii) : bool :=
  match c with
  | "009" | "010" | "011" | "012" | "013" | " " => true
  | _ => false
  end%char.

Definition code (c : ascii) : N := N_of_ascii c.

(** [isSpaceBytes p]: the bytes [p] are the UTF-8 encoding of one code
    point for which [unicode.IsSpace] holds.  Besides the six ASCII ones
    these are U+0085 and U+00A0 (two bytes), and U+1680, U+2000..U+200A,
    U+2028, U+2029, U+202F, U+205F and U+3000 (three bytes). *)
Definition isSpaceBytes (p : list ascii) : bool :=
  match p with
  | [c] => asciiSpace c
  | [c1; c2] =>
      (code c1 =? 0xC2)%N && ((code c2 =? 0x85)%N || (code c2 =? 0xA0)%N)
  | [c1; c2; c3] =>
      ((code c1 =? 0xE1)%N && (code c2 =? 0x9A)%N && (code c3 =? 0x80)%N)
      || ((code c1 =? 0xE2)%N && (code c2 =? 0x80)%N
          && (((0x80 <=? code c3)%N && (code c3 <=? 0x8A)%N)
              || (code c3 =? 0xA8)%N || (code c3 =? 0xA9)%N
              || (code c3 =? 0xAF)%N))
      || ((code c1 =? 0xE2)%N && (code c2 =? 0x81)%N && (code c3 =? 0x9F)%N)
      || ((code c1 =? 0xE3)%N && (code c2 =? 0x80)%N && (code c3 =? 0x80)%N)
  | _ => false
  end.

(** [strings.TrimLeftFunc(s, unicode.IsSpace)]: decode runes from the
    front and drop them while they are white space.  An invalid or
    truncated encoding decodes to U+FFFD, which is no white space, so the
    loop drops exactly the leading encodings of white space.  The first
    byte of an encoding tells its length, so at most one of the three
    tests holds. *)
Function TrimLeft (s : string) {struct s} : string :=
  match s with
  | EmptyString => EmptyString
  | String c1 s1 =>
      if isSpaceBytes [c1] then TrimLeft s1
      else match s1 with
           | EmptyString => s
           | String c2 s2 =>
               if isSpaceBytes [c1; c2] then TrimLeft s2
               else match s2 with
                    | EmptyString => s
                    | String c3 s3 =>
                        if isSpaceBytes [c1; c2; c3] then TrimLeft s3 else s
                    end
           end
  end.

(** The loop of [strings.TrimRightFunc(s, unicode.IsSpace)] decodes runes
    from the end: [utf8.DecodeLastRuneInString] steps back over at most
    three continuation bytes to a first byte, decodes from there, and
    takes the rune when it ends where the string ends.  So a rune is
    dropped exactly when the string ends with the encoding of a white
    space.  [trimRev] is that loop on the reversed string [r]: its first
    byte is the last byte of [s]. *)
Function trimRev (r : string) {struct r} : string :=
  match r with
  | EmptyString => EmptyString
  | String c1 r1 =>
      if isSpaceBytes [c1] then trimRev r1
      else match r1 with
           | EmptyString => r
           | String c2 r2 =>
               if isSpaceBytes [c2; c1] then trimRev r2
               else match r2 with
                    | EmptyString => r
                    | String c3 r3 =>
                        if isSpaceBytes [c3; c2; c1] then trimRev r3 else r
                    end
           end
  end.

(** [strings.TrimRightFunc(s, unicode.IsSpace)] *)
Definition TrimRight (s : string) : string :=
  String.rev (trimRev (String.rev s)).

(** [strings.TrimSpace(s)]: [s] without its leading and trailing white
    space, as defined by Unicode; the ASCII fast path of the function
    returns the same string as [TrimFunc(s, unicode.IsSpace)]. *)
Definition TrimSpace (s : string) : string := TrimRight (TrimLeft s).

(** [white s]: the string [s] is made of white space only, that is of
    encodings of white space code points (the line feed is one). *)
Inductive white : string → Prop :=
| white_nil : white EmptyString
| white_1 c s :
    isSpaceBytes [c] = true → white s → white (String c s)
| white_2 c1 c2 s :
    isSpaceBytes [c1; c2] = true → white s →
    white (String c1 (String c2 s))
| white_3 c1 c2 c3 s :
    isSpaceBytes [c1; c2; c3] = true → white s →
    white (String c1 (String c2 (String c3 s))).

(** [strings.Count(s, string(c))] for a one-byte substring. *)
Fixpoint Count (s : string) (c : ascii) : nat :=
  match s with
  | EmptyString => 0%nat
  | String a s' => ((if Ascii.eqb a c then 1 else 0) + Count s' c)%nat
  end.

(** [c] occurs in [s] ([strings.IndexByte(s, c) >= 0]). *)
Fixpoint Contains (s : string) (c : ascii) : bool :=
  match s with
  | EmptyString => false
  | String a s' => Ascii.eqb a c || Contains s' c
  end.

End gostrings.

(** ** Package [crypto/sha1] *)
Module sha1.

(** [uint32] arithmetic on [Z], with the wrap-around written out. *)
Definition u32 (x : Z) : Z := x mod 2 ^ 32.
Definition add32 (x y : Z) : Z := u32 (x + y).
Definition not32 (x : Z) : Z := Z.lxor x 0xFFFFFFFF.
(** [bits.RotateLeft32(x, k)] for [0 < k < 32]. *)
Definition RotateLeft32 (x k : Z) : Z :=
  Z.lor (u32 (Z.shiftl x k)) (Z.shiftr x (32 - k)).

Definition chunk : nat := 64.
Definition init0 : Z := 0x67452301.
Definition init1 : Z := 0xEFCDAB89.
Definition init2 : Z := 0x98BADCFE.
Definition init3 : Z := 0x10325476.
Definition init4 : Z := 0xC3D2E1F0.

Definition _K0 : Z := 0x5A827999.
Definition _K1 : Z := 0x6ED9EBA1.
Definition _K2 : Z := 0x8F1BBCDC.
Definition _K3 : Z := 0xCA62C1D6.

(** The [digest] struct: the five words [h], the bytes [x[:nx]] that
    wait for a full chunk, and the number [len] of bytes written. *)
Record digest := Digest {
  h : Z * Z * Z * Z * Z;
  x : list Z;
  len : Z
}.

(** [sha1.New()], that is [Reset]. *)
Definition New : digest :=
  {| h := (init0, init1, init2, init3, init4); x := []; len := 0 |}.

(** The sixteen big-endian words of one chunk. *)
Fixpoint words (n : nat) (p : list Z) : list Z :=
  match n, p with
  | S n', b0 :: b1 :: b2 :: b3 :: p' =>
      Z.lor (Z.lor (Z.lor (Z.shiftl b0 24) (Z.shiftl b1 16)) (Z.shiftl b2 8)) b3
      :: words n' p'
  | _, _ => []
  end.

Definition at16 (w : list Z) (i : nat) : Z := nth (i mod 16) w 0.

(** One of the eighty iterations of [blockGeneric] on the working
    variables; the four loops differ in [f] and in the constant. *)
Definition step (st : list Z * (Z * Z * Z * Z * Z)) (i : nat)
  : list Z * (Z * Z * Z * Z * Z) :=
  let '(w, (a, b, c, d, e)) := st in
  let w :=
    if (i <? 16)%nat then w
    else
      let tmp := Z.lxor (Z.lxor (Z.lxor (at16 w (i - 3)) (at16 w (i - 8)))
                                (at16 w (i - 14))) (at16 w i) in
      <[(i mod 16)%nat := RotateLeft32 tmp 1]> w in
  let f :=
    if (i <? 20)%nat then Z.lor (Z.land b c) (Z.land (not32 b) d)
    else if (i <? 40)%nat then Z.lxor (Z.lxor b c) d
    else if (i <? 60)%nat then Z.lor (Z.land (Z.lor b c) d) (Z.land b c)
    else Z.lxor (Z.lxor b c) d in
  let k :=
    if (i <? 20)%nat then _K0
    else if (i <? 40)%nat then _K1
    else if (i <? 60)%nat then _K2
    else _K3 in
  let t := add32 (add32 (add32 (add32 (RotateLeft32 a 5) f) e) (at16 w i)) k in
  (w, (t, a, RotateLeft32 b 30, c, d)).

(** The body of the outer loop of [blockGeneric]: one chunk [p] of 64
    bytes changes the five words. *)
Definition blockChunk (hs : Z * Z * Z * Z * Z) (p : list Z)
  : Z * Z * Z * Z * Z :=
  let '(h0, h1, h2, h3, h4) := hs in
  let '(_, (a, b, c, d, e)) := foldl step (words 16 p, hs) (seq 0 80) in
  (add32 h0 a, add32 h1 b, add32 h2 c, add32 h3 d, add32 h4 e).

(** [blockGeneric(dig, p)]: consume the [n] full chunks of [p]. *)
Fixpoint block (n : nat) (hs : Z * Z * Z * Z * Z) (p : list Z)
  : Z * Z * Z * Z * Z :=
  match n with
  | O => hs
  | S n' => block n' (blockChunk hs (take chunk p)) (drop chunk p)
  end.

(** [d.Write(p)]: the bytes are appended to the pending ones, the full
    chunks are consumed, the rest waits.  The error is always nil
    (["It never returns an error"], package [hash]). *)
Definition Write (d : digest) (p : list Z) : digest * (Z * option error) :=
  let buf := x d ++ p in
  let n := (length buf / chunk)%nat in
  ({| h := block n (h d) buf;
      x := drop (n * chunk)%nat buf;
      len := (len d + Z.of_nat (length p)) mod 2 ^ 64 |},
   (Z.of_nat (length p), None)).

(** The eight bytes of a [uint64], most significant first. *)
Definition PutUint64 (v : Z) : list Z :=
  map (fun i => Z.shiftr v (8 * i) mod 256) [7; 6; 5; 4; 3; 2; 1; 0].
Definition PutUint32 (v : Z) : list Z :=
  map (fun i => Z.shiftr v (8 * i) mod 256) [3; 2; 1; 0].

(** [d.checkSum()]: pad with [0x80] and zeros up to 56 bytes mod 64,
    append the length in bits, and read the five words. *)
Definition checkSum (d : digest) : list Z :=
  let l := len d in
  let pad :=
    if l mod 64 <? 56 then Z.to_nat (56 - l mod 64)
    else Z.to_nat (64 + 56 - l mod 64) in
  let tmp := 0x80 :: repeat 0 (pad - 1) in
  let d1 := fst (Write d tmp) in
  let d2 := fst (Write d1 (PutUint64 ((l * 8) mod 2 ^ 64))) in
  let '(h0, h1, h2, h3, h4) := h d2 in
  PutUint32 h0 ++ PutUint32 h1 ++ PutUint32 h2 ++ PutUint32 h3 ++ PutUint32 h4.

(** [d.Sum(in)]: the checksum appended to [in]; [d] itself is copied. *)
Definition Sum (d : digest) (b : list Z) : list Z := b ++ checkSum d.

(** *** SHA-1 in the words of FIPS 180-4

    The message is followed by the byte [0x80], by the least number of
    zero bytes that brings the length to 56 modulo 64, and by its length
    in bits as a 64-bit number; the chunks of the padded message are
    consumed from the initial words; the digest is the five words. *)
Definition padding (n : nat) : list Z :=
  0x80 :: repeat 0 ((119 - n mod 64) mod 64)%nat.

Definition padded (msg : list Z) : list Z :=
  msg ++ padding (length msg)
      ++ PutUint64 ((Z.of_nat (length msg) * 8) mod 2 ^ 64).

Definition SHA1 (msg : list Z) : list Z :=
  let '(h0, h1, h2, h3, h4) :=
    block (length (padded msg) / chunk)
          (init0, init1, init2, init3, init4) (padded msg) in
  PutUint32 h0 ++ PutUint32 h1 ++ PutUint32 h2 ++ PutUint32 h3 ++ PutUint32 h4.

(** What a digest knows of the bytes [M] written to it so far. *)
Definition written (d : digest) (M : list Z) : Prop :=
  h d = block (length M / chunk) (init0, init1, init2, init3, init4) M
  ∧ x d = drop (chunk * (length M / chunk)) M
  ∧ len d = Z.of_nat (length M) mod 2 ^ 64.

End sha1.

(** ** Package [encoding/base64] *)
Module base64.

Definition encodeStd : string :=
  "ABCDEFGHIJKLMNOPQRSTUVWXYZabcdefghijklmnopqrstuvwxyz0123456789+/".

Definition StdPadding : ascii := "="%char.

(** [enc.encode[v]] for the six-bit value [v]. *)
Definition enc (v : Z) : ascii :=
  match String.get (Z.to_nat (Z.land v 0x3F)) encodeStd with
  | Some c => c
  | None => StdPadding
  end.

(** [StdEncoding.EncodeToString(src)]: three bytes give four characters;
    a rest of one or two bytes is padded with ['=']. *)
Fixpoint EncodeToString (src : list Z) : string :=
  match src with
  | b0 :: b1 :: b2 :: rest =>
      let val := Z.lor (Z.lor (Z.shiftl b0 16) (Z.shiftl b1 8)) b2 in
      String (enc (Z.shiftr val 18)) (String (enc (Z.shiftr val 12))
        (String (enc (Z.shiftr val 6)) (String (enc val)
          (EncodeToString rest))))
  | [b0; b1] =>
      let val := Z.lor (Z.shiftl b0 16) (Z.shiftl b1 8) in
      String (enc (Z.shiftr val 18)) (String (enc (Z.shiftr val 12))
        (String (enc (Z.shiftr val 6)) (String StdPadding EmptyString)))
  | [b0] =>
      let val := Z.shiftl b0 16 in
      String (enc (Z.shiftr val 18)) (String (enc (Z.shiftr val 12))
        (String StdPadding (String StdPadding EmptyString)))
  | [] => EmptyString
  end.

End base64.

(** The conversion [[]byte(s)] of a string, as numbers below 256. *)
Definition bytes_of_string (s : string) : list Z :=
  map (fun b => Z.of_N (Byte.to_N b)) (String.list_byte_of_string s).

Definition hex_digit (v : Z) : ascii :=
  match String.get (Z.to_nat v) "0123456789abcdef" with
  | Some c => c
  | None => "?"%char
  end.

(** [hex.EncodeToString], to compare digests with published ones. *)
Fixpoint hex (l : list Z) : string :=
  match l with
  | [] => EmptyString
  | b :: l' => String (hex_digit (b / 16)) (String (hex_digit (b mod 16)) (hex l'))
  end.

(** ** Package [htpasswd] *)
Module htpasswd.
Import gostrings.

(** [type passwordFile struct { passwords map[string]string }] *)
Record passwordFile := PasswordFile { passwords : gmap string string }.

(** A method with receiver [f *passwordFile] changes the struct in place:
    it is a function to the new struct and the returned values. *)

Definition errTokens : error := Errorf "invalid number of tokens" [].
Definition errExists (username : string) : error :=
  Errorf "username %q already exists" [username].
Definition errNotExist (username : string) : error :=
  Errorf "user %q does not exist" [username].

(** The [for _, l := range strings.Split(string(data), "\n")] loop of
    [newPasswordFile], on the lines still to read and the file built so
    far.  An error leaves the loop at once with a nil file. *)
Fixpoint newPasswordFile_loop (lines : list string) (f : passwordFile)
  : option passwordFile * option error :=
  match lines with
  | [] => (Some f, None)
  | l :: lines' =>
      let l := TrimSpace l in
      if decide (l = "") then newPasswordFile_loop lines' f
      else
        let parts := Split l colon in
        if decide (length parts ≠ 2%nat) then (None, Some errTokens)
        else
          let username := TrimSpace (nth 0 parts "") in
          let password := TrimSpace (nth 1 parts "") in
          match passwords f !! username with
          | Some _ => (None, Some (errExists username))
          | None =>
              newPasswordFile_loop lines'
                {| passwords := <[username := password]> (passwords f) |}
          end
  end.

(** [newPasswordFile(data)].  The value of the first statement,
    [bytes.Split(data, []byte{'\n'})], is dropped. *)
Definition newPasswordFile (data : list byte)
  : option passwordFile * option error :=
  newPasswordFile_loop
    (Split (String.string_of_list_byte data) LF)
    {| passwords := ∅ |}.

(** Go leaves the order of [for k, v := range m] open: one run of the
    loop meets every entry of the map once, in some order [l]. *)
Definition range (m : gmap string string) (l : list (string * string))
  : Prop :=
  l ≡ₚ map_to_list m.

(** [ListUsers] when its loop meets the entries in the order [l]. *)
Definition ListUsers_range (l : list (string * string))
  : list string * option error :=
  (foldl (fun users kv => users ++ [kv.1]) [] l, None).

(** [f.ListUsers()] may return [r]. *)
Definition ListUsers (f : passwordFile) (r : list string * option error)
  : Prop :=
  ∃ l, range (passwords f) l ∧ r = ListUsers_range l.

(** [f.DeleteUser(username)] *)
Definition DeleteUser (f : passwordFile) (username : string)
  : passwordFile * option error :=
  match passwords f !! username with
  | None => (f, Some (errNotExist username))
  | Some _ => ({| passwords := delete username (passwords f) |}, None)
  end.

(** [f.SetPassword(username, password)] *)
Definition SetPassword (f : passwordFile) (username password : string)
  : passwordFile * option error :=
  let hash := sha1.New in
  let '(hash, (_, err)) := sha1.Write hash (bytes_of_string password) in
  match err with
  | Some e => (f, Some e)
  | None =>
      ({| passwords :=
            <[username :=
                "{SHA}" +:+ base64.EncodeToString (sha1.Sum hash [])]>
              (passwords f) |},
       None)
  end.

(** One [buf.WriteString(user + ":" + pass + "\n")]. *)
Definition record (kv : string * string) : string :=
  kv.1 +:+ String colon EmptyString +:+ kv.2 +:+ String LF EmptyString.

(** [Bytes] when its loop meets the entries in the order [l]. *)
Definition Bytes_range (l : list (string * string)) : list byte :=
  String.list_byte_of_string (foldl (fun buf kv => buf +:+ record kv) "" l).

(** [f.Bytes()] may return [out]. *)
Definition Bytes (f : passwordFile) (out : list byte) : Prop :=
  ∃ l, range (passwords f) l ∧ out = Bytes_range l.

(** The run of [ListUsers] and of [Bytes] in the order in which
    [map_to_list] lists the entries. *)
Definition ListUsers_run (f : passwordFile) : list string * option error :=
  ListUsers_range (map_to_list (passwords f)).
Definition Bytes_run (f : passwordFile) : list byte :=
  Bytes_range (map_to_list (passwords f)).

(** *** The vocabulary of the specification *)

(** A line is blank when trimming leaves nothing of it. *)
Definition blank (l : string) : Prop := TrimSpace l = "".

#[global] Instance blank_dec (l : string) : Decision (blank l).
Proof. unfold blank. apply _. Defined.

(** The [':']-separated fields of a line, its username and credential. *)
Definition fields (l : string) : list string := Split (TrimSpace l) colon.
Definition username_of (l : string) : string := TrimSpace (nth 0 (fields l) "").
Definition credential_of (l : string) : string := TrimSpace (nth 1 (fields l) "").

(** A malformed line: not blank, and not of exactly two fields. *)
Definition malformed (l : string) : Prop :=
  ¬ blank l ∧ length (fields l) ≠ 2%nat.

(** The entries that the non-blank lines of [ls] stand for. *)
Definition entries (ls : list string) : list (string * string) :=
  (fun l => (username_of l, credential_of l)) <$> filter (fun l => ¬ blank l) ls.

(** The username [u] stands on two non-blank lines of [ls]. *)
Definition repeated (u : string) (ls : list string) : Prop :=
  ∃ pre l1 mid l2 post,
    ls = pre ++ l1 :: mid ++ l2 :: post
    ∧ ¬ blank l1 ∧ ¬ blank l2 ∧ username_of l1 = u ∧ username_of l2 = u.

(** Decode in the words of the specification: split on newline, trim each
    line, skip the blank ones, split each of the others at the colon and
    trim both fields; the store has these entries. *)
Definition spec_lines (data : list byte) : list string :=
  filter (fun l => l ≠ "")
         (TrimSpace <$> Split (String.string_of_list_byte data) LF).
Definition spec_entry (l : string) : string * string :=
  (TrimSpace (nth 0 (Split l colon) ""), TrimSpace (nth 1 (Split l colon) "")).
Definition spec_decode (data : list byte) : gmap string string :=
  list_to_map (spec_entry <$> spec_lines data).

(** A well-formed field: not empty, without [':'] and newline, and left
    alone by trimming.  A well-formed store has only such fields. *)
Definition well_formed_field (s : string) : Prop :=
  s ≠ "" ∧ Contains s colon = false ∧ Contains s LF = false ∧ TrimSpace s = s.
Definition well_formed (f : passwordFile) : Prop :=
  map_Forall (fun u c => well_formed_field u ∧ well_formed_field c)
             (passwords f).

#[global] Instance well_formed_field_dec (s : string) :
  Decision (well_formed_field s).
Proof. unfold well_formed_field. apply _. Defined.

#[global] Instance well_formed_dec (f : passwordFile) : Decision (well_formed f).
Proof. unfold well_formed. apply _. Defined.

(** No username and no credential of the store holds a newline. *)
Definition no_newline (f : passwordFile) : Prop :=
  map_Forall (fun u c => Contains u LF = false ∧ Contains c LF = false)
             (passwords f).

#[global] Instance no_newline_dec (f : passwordFile) : Decision (no_newline f).
Proof. unfold no_newline. apply _. Defined.

(** The text [user:pass] of a record, without its newline, and the
    concatenation of strings. *)
Definition line (kv : string * string) : string :=
  kv.1 +:+ String colon kv.2.
Definition cat (ls : list string) : string := foldr String.append "" ls.

(** The credential of a password: the tag [{SHA}] and the padded base64
    text of the SHA-1 digest of the password. *)
Definition credential (password : string) : string :=
  "{SHA}" +:+ base64.EncodeToString (sha1.SHA1 (bytes_of_string password)).

(** A username that [SetPassword] is asked to reject. *)
Definition invalid_username (username : string) : Prop :=
  Contains username colon = true ∨ Contains username LF = true ∨ username = "".

(** *** Stores and inputs of the examples *)

(** The store of the two users [alice] and [bob]. *)
Definition alice_bob : passwordFile :=
  {| passwords := <["alice" := "{SHA}abc"]> (<["bob" := "{SHA}def"]> ∅) |}.

(** The empty store. *)
Definition empty_file : passwordFile := {| passwords := ∅ |}.

(** A username of two lines, and the store after a password is set for
    it in the empty store. *)
Definition two_line_name : string := "a" +:+ String LF "b".
Definition two_line_file : passwordFile :=
  (SetPassword empty_file two_line_name "secret").1.

(** A text of white space only: a space, a tab and the two bytes of
    U+00A0, each followed by a newline. *)
Definition white_text : list byte :=
  String.list_byte_of_string
    (String " " (String LF (String "009" (String LF
       (String "194" (String "160" (String LF ""))))))).

(** The bytes of a text whose lines are given: each line is followed by a
    newline. *)
Definition text (ls : list string) : list byte :=
  String.list_byte_of_string (cat ((fun l => l +:+ String LF "") <$> ls)).

End htpasswd.

Import gostrings htpasswd.

(** ** Further vocabulary for the stores that the code builds *)

(** A field as [newPasswordFile] stores it: without [':'] and newline and
    left alone by trimming.  It may be empty: the line [":x"] gives the
    empty username. *)
Definition clean_field (s : string) : Prop :=
  Contains s colon = false ∧ Contains s LF = false ∧ TrimSpace s = s.

#[global] Instance clean_field_dec (s : string) : Decision (clean_field s).
Proof. unfold clean_field. apply _. Defined.

Definition clean (f : passwordFile) : Prop :=
  map_Forall (fun u c => clean_field u ∧ clean_field c) (passwords f).

#[global] Instance clean_dec (f : passwordFile) : Decision (clean f).
Proof. unfold clean. apply _. Defined.

(** A store with an empty username and an empty credential. *)
Definition odd_file : passwordFile :=
  {| passwords := <["alice" := "x"]> (<["" := "y"]> (<["bob" := ""]> ∅)) |}.

(** A plain byte: of the ASCII half, no white space and no colon.  A
    plain string has only such bytes. *)
Definition plain (c : ascii) : bool :=
  (code c <? 0x80)%N && negb (asciiSpace c) && negb (Ascii.eqb c colon).

Fixpoint allPlain (s : string) : bool :=
  match s with
  | EmptyString => true
  | String c s' => plain c && allPlain s'
  end.

(** ** The command of package [htpasswd]

    [Validate], [getSecret], [Run], [Complete] and the [RunE] closure of
    [NewCommand].  The collaborators (the kubeconfig loader, the
    Kubernetes client, the terminal) are outside the package: what they
    answer is given in an environment, and what the process does to them
    and to standard output is listed, in order, as events. *)
Module command.

(** The fields of [CommandOptions] that hold data; [configFlags],
    [context], [clientset], [rawConfig] and [IOStreams] are handles of
    the collaborators. *)
Record CommandOptions := {
  args : list string;
  namespace : string;
  secretName : string;
  username : string;
  keyName : string;
  createSecret : bool;
  deleteUser : bool;
  listUsers : bool
}.

Definition set_args (a : list string) (o : CommandOptions) : CommandOptions :=
  {| args := a; namespace := namespace o; secretName := secretName o;
     username := username o; keyName := keyName o;
     createSecret := createSecret o; deleteUser := deleteUser o;
     listUsers := listUsers o |}.
Definition set_namespace (ns : string) (o : CommandOptions) : CommandOptions :=
  {| args := args o; namespace := ns; secretName := secretName o;
     username := username o; keyName := keyName o;
     createSecret := createSecret o; deleteUser := deleteUser o;
     listUsers := listUsers o |}.
Definition set_secretName (n : string) (o : CommandOptions) : CommandOptions :=
  {| args := args o; namespace := namespace o; secretName := n;
     username := username o; keyName := keyName o;
     createSecret := createSecret o; deleteUser := deleteUser o;
     listUsers := listUsers o |}.
Definition set_username (u : string) (o : CommandOptions) : CommandOptions :=
  {| args := args o; namespace := namespace o; secretName := secretName o;
     username := u; keyName := keyName o;
     createSecret := createSecret o; deleteUser := deleteUser o;
     listUsers := listUsers o |}.

Definition errRequired : error := Errorf "secret and username are required" [].
Definition errMissingContext : error := Errorf "missing context" [].
Definition errSecretType : error := Errorf "invalid secret type" [].
Definition errNoKey (key : string) : error :=
  Errorf "Secret with key %q does not exist" [key].

(** [o.Validate()] *)
Definition Validate (o : CommandOptions) : CommandOptions * option error :=
  if (length (args o) =? 1)%nat && listUsers o then
    (set_secretName (nth 0 (args o) "") o, None)
  else if (length (args o) =? 2)%nat then
    (set_username (nth 1 (args o) "")
       (set_secretName (nth 0 (args o) "") o), None)
  else (o, Some errRequired).

(** The kubeconfig as [Complete] reads it: the contexts with their
    namespace, and the name of the current one. *)
Record Context := { ctxNamespace : string }.
Record Config := {
  Contexts : gmap string Context;
  CurrentContext : string
}.

(** What the collaborators of [Complete] answer: [RawConfig()], the
    pointer [configFlags.Namespace] (nil is [None]), the errors of
    [ToRESTConfig()] and of [kubernetes.NewForConfig]. *)
Record ConfigEnv := {
  rawConfig : Config * option error;
  flagNamespace : option string;
  restConfig : option error;
  newClientset : option error
}.

(** [o.Complete(cmd, args)] *)
Definition Complete (o : CommandOptions) (a : list string) (c : ConfigEnv)
  : CommandOptions * option error :=
  let o := set_args a o in
  match rawConfig c with
  | (_, Some err) => (o, Some err)
  | (cfg, None) =>
      match Contexts cfg !! CurrentContext cfg with
      | None => (o, Some errMissingContext)
      | Some context =>
          let o :=
            match flagNamespace c with
            | Some ns =>
                if decide (ns ≠ "") then set_namespace ns o
                else set_namespace (ctxNamespace context) o
            | None => set_namespace (ctxNamespace context) o
            end in
          match restConfig c with
          | Some err => (o, Some err)
          | None =>
              match newClientset c with
              | Some err => (o, Some err)
              | None => (o, None)
              end
          end
      end
  end.

(** A [v1.Secret], with the fields the package reads or writes. *)
Definition SecretTypeOpaque : string := "Opaque".
Record Secret := {
  Name : string;
  Namespace : string;
  Type_ : string;
  Data : gmap string (list byte)
}.

(** [secret.Data[key] = v] *)
Definition setData (secret : Secret) (key : string) (v : list byte) : Secret :=
  {| Name := Name secret; Namespace := Namespace secret;
     Type_ := Type_ secret; Data := <[key := v]> (Data secret) |}.

(** What [Secrets(ns).Get(name)] answers: a secret and a nil error, an
    error for which [apierrors.IsNotFound] holds, another
    [*apierrors.StatusError] with its [ErrStatus.Message], or any other
    error. *)
Inductive getResult :=
| GetOk (secret : Secret)
| GetNotFound
| GetStatusError (message : string)
| GetError (err : error).

(** What the collaborators of [Run] answer: the [Get], the two calls of
    [terminal.ReadPassword], the error of [Update] or [Create], and the
    order in which a loop meets the entries of a map. *)
Record Env := {
  get : getResult;
  read1 : list byte * option error;
  read2 : list byte * option error;
  write : option error;
  order : gmap string string → list (string * string)
}.

(** What the process does, in order: prints ([fmt.Printf] with its
    arguments, [fmt.Println]), reads of the terminal and requests to the
    cluster. *)
Inductive value := Str (s : string) | Err (e : error).
Inductive event :=
| Printf (format : string) (a : list value)
| Println (s : string)
| ReadPassword
| Get (ns name : string)
| Update (ns : string) (secret : Secret)
| Create (ns : string) (secret : Secret).

(** How a function ends: it returns, the process exits ([os.Exit]), or a
    nil pointer is dereferenced. *)
Inductive result (A : Type) :=
| Return (a : A)
| Exit (code : Z)
| Panic.
Arguments Return {A} a.
Arguments Exit {A} code.
Arguments Panic {A}.

Definition nl : string := String LF "".

(** [o.getSecret()] *)
Definition getSecret (o : CommandOptions) (e : Env)
  : list event * result (option Secret * list byte * option error) :=
  if createSecret o then
    ([], Return (Some {| Name := secretName o; Namespace := namespace o;
                         Type_ := SecretTypeOpaque; Data := ∅ |},
                 [], None))
  else
    let t := [Get (namespace o) (secretName o)] in
    match get e with
    | GetNotFound =>
        (t ++ [Printf ("Secret %q not found" +:+ nl) [Str (secretName o)]],
         Exit 1)
    | GetStatusError message =>
        (t ++ [Printf ("Error getting secret %v" +:+ nl) [Str message]],
         Exit 1)
    | GetError err =>
        (t ++ [Printf "Unkown error: %v" [Err err]], Exit 1)
    | GetOk secret =>
        if decide (Type_ secret ≠ SecretTypeOpaque) then
          (t, Return (None, [], Some errSecretType))
        else
          match Data secret !! keyName o with
          | None => (t, Return (None, [], Some (errNoKey (keyName o))))
          | Some data => (t, Return (Some secret, data, None))
          end
    end.

(** [o.Run()] *)
Definition Run (o : CommandOptions) (e : Env)
  : list event * result (option error) :=
  match getSecret o e with
  | (t, Exit code) => (t, Exit code)
  | (t, Panic) => (t, Panic)
  | (t, Return (_, _, Some err)) => (t, Return (Some err))
  | (t, Return (secret, data, None)) =>
      match newPasswordFile data with
      | (_, Some err) => (t, Return (Some err))
      | (None, None) => (t, Panic)
      | (Some htpasswd, None) =>
          if listUsers o then
            match ListUsers_range (order e (passwords htpasswd)) with
            | (_, Some err) => (t, Return (Some err))
            | (users, None) =>
                (t ++ Printf ("Existing users:" +:+ nl) []
                      :: (Println <$> users),
                 Return None)
            end
          else if deleteUser o then
            match DeleteUser htpasswd (username o) with
            | (_, Some err) => (t, Return (Some err))
            | (htpasswd, None) =>
                match secret with
                | None => (t, Panic)
                | Some secret =>
                    (t ++ [Update (namespace o)
                             (setData secret (keyName o)
                                (Bytes_range
                                   (order e (passwords htpasswd))))],
                     Return (write e))
                end
            end
          else
            let t := t ++ [Printf "Enter password: " []; ReadPassword] in
            match read1 e with
            | (_, Some err) => (t, Return (Some err))
            | (password1, None) =>
                let t :=
                  t ++ [Printf (nl +:+ "Repeat password: ") [];
                        ReadPassword] in
                match read2 e with
                | (_, Some err) => (t, Return (Some err))
                | (password2, None) =>
                    let t := t ++ [Printf nl []] in
                    if decide (String.string_of_list_byte password1
                               ≠ String.string_of_list_byte password2)
                    then (t ++ [Println "passwords don't match"], Exit 1)
                    else
                      match SetPassword htpasswd (username o)
                              (String.string_of_list_byte password1) with
                      | (_, Some err) => (t, Return (Some err))
                      | (htpasswd, None) =>
                          match secret with
                          | None => (t, Panic)
                          | Some secret =>
                              let secret :=
                                setData secret (keyName o)
                                  (Bytes_range
                                     (order e (passwords htpasswd))) in
                              let t :=
                                t ++ [if createSecret o
                                      then Create (namespace o) secret
                                      else Update (namespace o) secret] in
                              match write e with
                              | Some err =>
                                  (t ++ [Println
                                           "Password updated successfully"],
                                   Return (Some err))
                              | None => (t, Return None)
                              end
                          end
                      end
                end
            end
      end
  end.

(** The [RunE] closure of [NewCommand], on the options after the flags
    are parsed: [Complete], [Validate], [Run], up to the first error. *)
Definition RunE (o : CommandOptions) (a : list string)
    (c : ConfigEnv) (e : Env) : list event * result (option error) :=
  match Complete o a c with
  | (_, Some err) => ([], Return (Some err))
  | (o, None) =>
      match Validate o with
      | (_, Some err) => ([], Return (Some err))
      | (o, None) => Run o e
      end
  end.

(** The events that change the cluster. *)
Definition is_write (ev : event) : bool :=
  match ev with
  | Update _ _ | Create _ _ => true
  | _ => false
  end.

Definition writes (t : list event) : list event := filter is_write t.


(** The events of [Run] up to the write, when it asks for a password. *)
Definition prompts : list event :=
  [Printf "Enter password: " []; ReadPassword;
   Printf (nl +:+ "Repeat password: ") []; ReadPassword;
   Printf nl []].

(** What [Run] prints after the write. *)
Definition announce (err : option error) : list event :=
  match err with
  | Some _ => [Println "Password updated successfully"]
  | None => []
  end.

(** An environment for the examples: the secret [htpasswd] with the
    two users under [auth], the password [secret] typed twice, a write
    that goes well. *)
Definition auth_secret : Secret :=
  {| Name := "htpasswd"; Namespace := "default"; Type_ := SecretTypeOpaque;
     Data := {[ "auth" := text ["alice:{SHA}abc"; "bob:{SHA}def"] ]} |}.
Definition typed_env : Env :=
  {| get := GetOk auth_secret;
     read1 := (String.list_byte_of_string "secret", None);
     read2 := (String.list_byte_of_string "secret", None);
     write := None;
     order := map_to_list |}.
(** Two more: the second password typed differs; the write fails. *)
Definition mistyped_env : Env :=
  {| get := GetNotFound;
     read1 := (String.list_byte_of_string "secret", None);
     read2 := (String.list_byte_of_string "Secret", None);
     write := None;
     order := map_to_list |}.
Definition refused_env : Env :=
  {| get := GetNotFound;
     read1 := (String.list_byte_of_string "secret", None);
     read2 := (String.list_byte_of_string "secret", None);
     write := Some (Errorf "already exists" []);
     order := map_to_list |}.
Definition options (a : list string) (create delete list : bool)
  : CommandOptions :=
  {| args := a; namespace := "default"; secretName := nth 0 a "";
     username := nth 1 a ""; keyName := "auth";
     createSecret := create; deleteUser := delete; listUsers := list |}.
Definition kube_env : ConfigEnv :=
  {| rawConfig := ({| Contexts := {[ "dev" := {| ctxNamespace := "default" |} ]};
                      CurrentContext := "dev" |}, None);
     flagNamespace := None; restConfig := None; newClientset := None |}.

End command.

(** * Facts about strings *)
Section string_facts.

Lemma sapp_nil_l (s : string) : "" +:+ s = s.
Proof. reflexivity. Qed.

Lemma sapp_cons (c : ascii) (a b : string) :
  String c a +:+ b = String c (a +:+ b).
Proof. reflexivity. Qed.

Lemma sapp_nil_r (s : string) : s +:+ "" = s.
Proof. induction s as [|c s IH]; [done|]. by rewrite sapp_cons, IH. Qed.

Lemma sapp_assoc (a b c : string) : (a +:+ b) +:+ c = a +:+ b +:+ c.
Proof.
  induction a as [|x a IH]; [done|]. by rewrite !sapp_cons, IH.
Qed.

Lemma sapp_length (a b : string) :
  String.length (a +:+ b) = (String.length a + String.length b)%nat.
Proof.
  induction a as [|x a IH]; [done|]. rewrite sapp_cons. simpl. by rewrite IH.
Qed.

Lemma srev_app_spec (s t : string) :
  String.rev_app s t = String.rev s +:+ t.
Proof.
  unfold String.rev. revert t.
  induction s as [|c s IH]; intros t; simpl; [done|].
  rewrite (IH (String c "")), IH, sapp_assoc. done.
Qed.

Lemma srev_cons (c : ascii) (s : string) :
  String.rev (String c s) = String.rev s +:+ String c "".
Proof. unfold String.rev at 1. simpl. apply srev_app_spec. Qed.

Lemma srev_app_distr (a b : string) :
  String.rev (a +:+ b) = String.rev b +:+ String.rev a.
Proof.
  induction a as [|c a IH].
  - by rewrite sapp_nil_l, sapp_nil_r.
  - by rewrite sapp_cons, !srev_cons, IH, sapp_assoc.
Qed.

Lemma srev_involutive (s : string) : String.rev (String.rev s) = s.
Proof.
  induction s as [|c s IH]; [done|].
  by rewrite srev_cons, srev_app_distr, IH.
Qed.

Lemma srev_length (s : string) :
  String.length (String.rev s) = String.length s.
Proof.
  induction s as [|c s IH]; [done|].
  rewrite srev_cons, sapp_length, IH. simpl. lia.
Qed.

Lemma srev_inj (a b : string) : String.rev a = String.rev b → a = b.
Proof.
  intros H. by rewrite <- (srev_involutive a), H, srev_involutive.
Qed.

Lemma Contains_app (a b : string) (c : ascii) :
  Contains (a +:+ b) c = Contains a c || Contains b c.
Proof.
  induction a as [|x a IH]; [done|].
  rewrite sapp_cons. simpl. by rewrite IH, orb_assoc.
Qed.

Lemma Contains_rev (s : string) (c : ascii) :
  Contains (String.rev s) c = Contains s c.
Proof.
  induction s as [|x s IH]; [done|].
  rewrite srev_cons, Contains_app, IH. simpl.
  rewrite orb_false_r. apply orb_comm.
Qed.

End string_facts.

(** * Facts about [Split] *)
Section split_facts.

Lemma Split_not_nil (s : string) (c : ascii) : Split s c ≠ [].
Proof.
  destruct s as [|a s]; simpl; [done|].
  destruct (Ascii.eqb a c); [done|]. by destruct (Split s c).
Qed.

Lemma Split_sep (s : string) (c : ascii) :
  Split (String c s) c = "" :: Split s c.
Proof. simpl. by rewrite Ascii.eqb_refl. Qed.

Lemma Split_other (a c : ascii) (s l : string) (ls : list string) :
  Ascii.eqb a c = false → Split s c = l :: ls →
  Split (String a s) c = String a l :: ls.
Proof. intros Ha Hs. simpl. by rewrite Ha, Hs. Qed.

(** A string without the separator is one field. *)
Lemma Split_no_sep (s : string) (c : ascii) :
  Contains s c = false → Split s c = [s].
Proof.
  induction s as [|a s IH]; simpl; [done|].
  intros [Ha Hs]%orb_false_iff. by rewrite Ha, (IH Hs).
Qed.

(** Cutting after the first separator. *)
Lemma Split_app_sep (a b : string) (c : ascii) :
  Contains a c = false → Split (a +:+ String c b) c = a :: Split b c.
Proof.
  induction a as [|x a IH]; intros Ha.
  - rewrite sapp_nil_l. apply Split_sep.
  - simpl in Ha. apply orb_false_iff in Ha as [Hx Ha].
    rewrite sapp_cons. by apply Split_other; [|apply IH].
Qed.

Lemma Split_length (s : string) (c : ascii) :
  length (Split s c) = S (Count s c).
Proof.
  induction s as [|a s IH]; simpl; [done|].
  destruct (Ascii.eqb a c); simpl; [by rewrite IH|].
  destruct (Split s c) as [|l ls] eqn:E; [by apply Split_not_nil in E|].
  simpl in *. lia.
Qed.

(** No field holds the separator. *)
Lemma Split_fields (s : string) (c : ascii) :
  Forall (fun l => Contains l c = false) (Split s c).
Proof.
  induction s as [|a s IH]; simpl; [by repeat constructor|].
  destruct (Ascii.eqb a c) eqn:Ha; [by constructor|].
  destruct (Split s c) as [|l ls]; [by repeat constructor; simpl; rewrite Ha|].
  inversion_clear IH. constructor; [|done]. simpl. by rewrite Ha.
Qed.

End split_facts.

(** * Facts about white space and [TrimSpace] *)
Section trim_facts.

(** A byte of the upper half is no ASCII white space, colon or line feed. *)
Lemma high_byte (c : ascii) :
  (0x80 <= code c)%N →
  asciiSpace c = false ∧ Ascii.eqb c colon = false ∧ Ascii.eqb c LF = false.
Proof.
  destruct c as [[] [] [] [] [] [] [] []]; vm_compute; intros H;
    try (exfalso; apply H; reflexivity); done.
Qed.

Lemma asciiSpace_colon (c : ascii) :
  asciiSpace c = true → Ascii.eqb c colon = false.
Proof. destruct c as [[] [] [] [] [] [] [] []]; vm_compute; congruence. Qed.

Lemma space2_high (c1 c2 : ascii) :
  isSpaceBytes [c1; c2] = true → (0x80 <= code c1)%N ∧ (0x80 <= code c2)%N.
Proof.
  unfold isSpaceBytes.
  rewrite andb_true_iff, orb_true_iff, !N.eqb_eq. lia.
Qed.

Lemma space3_high (c1 c2 c3 : ascii) :
  isSpaceBytes [c1; c2; c3] = true →
  (0x80 <= code c1)%N ∧ (0x80 <= code c2)%N ∧ (0x80 <= code c3)%N.
Proof.
  unfold isSpaceBytes.
  rewrite !orb_true_iff, !andb_true_iff, !orb_true_iff, !andb_true_iff,
    !N.eqb_eq, !N.leb_le. lia.
Qed.

Lemma space2_not1 (c1 c2 : ascii) :
  isSpaceBytes [c1; c2] = true → isSpaceBytes [c1] = false.
Proof. intros [H _]%space2_high. by apply high_byte. Qed.

Lemma space3_not1 (c1 c2 c3 : ascii) :
  isSpaceBytes [c1; c2; c3] = true → isSpaceBytes [c1] = false.
Proof. intros [H _]%space3_high. by apply high_byte. Qed.

(** The first byte tells the length of an encoding: no encoding of two
    bytes starts one of three. *)
Lemma space3_not2 (c1 c2 c3 : ascii) :
  isSpaceBytes [c1; c2; c3] = true → isSpaceBytes [c1; c2] = false.
Proof.
  unfold isSpaceBytes.
  rewrite !orb_true_iff, !andb_true_iff, !orb_true_iff, !andb_true_iff,
    andb_false_iff, !N.eqb_eq, !N.leb_le, N.eqb_neq. lia.
Qed.

Lemma TrimLeft_length (s : string) :
  (String.length (TrimLeft s) ≤ String.length s)%nat.
Proof. functional induction (TrimLeft s); simpl in *; lia. Qed.

Lemma trimRev_length (r : string) :
  (String.length (trimRev r) ≤ String.length r)%nat.
Proof. functional induction (trimRev r); simpl in *; lia. Qed.

Lemma TrimRight_length (s : string) :
  (String.length (TrimRight s) ≤ String.length s)%nat.
Proof.
  unfold TrimRight. rewrite srev_length.
  etrans; [apply trimRev_length|]. by rewrite srev_length.
Qed.

(** Leading white space is dropped whole. *)
Lemma TrimLeft_white_app (p s : string) :
  white p → TrimLeft (p +:+ s) = TrimLeft s.
Proof.
  induction 1 as [|c p Hc _ IH|c1 c2 p Hc _ IH|c1 c2 c3 p Hc _ IH];
    [done|..]; rewrite ?sapp_cons, TrimLeft_equation.
  - by rewrite Hc.
  - by rewrite (space2_not1 _ _ Hc), Hc.
  - by rewrite (space3_not1 _ _ _ Hc), (space3_not2 _ _ _ Hc), Hc.
Qed.

Lemma white_TrimLeft (s : string) : white s → TrimLeft s = "".
Proof.
  intros H. rewrite <- (sapp_nil_r s). by rewrite TrimLeft_white_app.
Qed.

(** What [TrimLeft] drops is white space. *)
Lemma TrimLeft_split (s : string) :
  ∃ p, white p ∧ s = p +:+ TrimLeft s.
Proof.
  functional induction (TrimLeft s);
    try (by exists ""; split; [constructor|]);
    destruct IHs0 as (p & Hp & Hs).
  - exists (String c1 p). split; [by constructor|].
    by rewrite sapp_cons, <- Hs.
  - exists (String c1 (String c2 p)). split; [by constructor|].
    by rewrite !sapp_cons, <- Hs.
  - exists (String c1 (String c2 (String c3 p))). split; [by constructor|].
    by rewrite !sapp_cons, <- Hs.
Qed.

Lemma TrimLeft_white (s : string) : TrimLeft s = "" → white s.
Proof.
  intros H. destruct (TrimLeft_split s) as (p & Hp & Hs).
  rewrite H, sapp_nil_r in Hs. by subst.
Qed.

Lemma white_app (a b : string) : white a → white b → white (a +:+ b).
Proof.
  induction 1 as [|c a Hc _ IH|c1 c2 a Hc _ IH|c1 c2 c3 a Hc _ IH];
    intros Hb; rewrite ?sapp_cons; [done|..].
  - apply white_1; auto.
  - apply white_2; auto.
  - apply white_3; auto.
Qed.

(** What the loop of [TrimRight] drops is white space, read backwards. *)
Lemma trimRev_split (r : string) :
  ∃ q, white (String.rev q) ∧ r = q +:+ trimRev r.
Proof.
  functional induction (trimRev r);
    try (by exists ""; split; [constructor|]);
    destruct IHs as (q & Hq & Hs).
  - exists (String c1 q). split; [|by rewrite sapp_cons, <- Hs].
    rewrite srev_cons. apply white_app; [done|].
    by apply white_1; [|constructor].
  - exists (String c1 (String c2 q)).
    split; [|by rewrite !sapp_cons, <- Hs].
    rewrite !srev_cons, sapp_assoc. apply white_app; [done|].
    by apply white_2; [|constructor].
  - exists (String c1 (String c2 (String c3 q))).
    split; [|by rewrite !sapp_cons, <- Hs].
    rewrite !srev_cons, !sapp_assoc. apply white_app; [done|].
    by apply white_3; [|constructor].
Qed.

(** [TrimSpace] takes white space away at both ends, and nothing else. *)
Lemma TrimSpace_split (s : string) :
  ∃ p q, white p ∧ white q ∧ s = p +:+ TrimSpace s +:+ q.
Proof.
  destruct (TrimLeft_split s) as (p & Hp & Hs).
  destruct (trimRev_split (String.rev (TrimLeft s))) as (q & Hq & Hr).
  exists p, (String.rev q). split_and!; [done|done|].
  unfold TrimSpace, TrimRight. rewrite <- srev_app_distr, <- Hr.
  by rewrite srev_involutive.
Qed.

(** Trimming neither drops nor adds a colon. *)
Lemma Contains_TrimLeft (s : string) :
  Contains (TrimLeft s) colon = Contains s colon.
Proof.
  functional induction (TrimLeft s); try done; rewrite IHs0; simpl.
  - by rewrite (asciiSpace_colon c1).
  - apply space2_high in e2 as [?%high_byte ?%high_byte].
    by rewrite (proj1 (proj2 H)), (proj1 (proj2 H0)).
  - apply space3_high in e4 as (?%high_byte & ?%high_byte & ?%high_byte).
    by rewrite (proj1 (proj2 H)), (proj1 (proj2 H0)), (proj1 (proj2 H1)).
Qed.

Lemma Contains_trimRev (r : string) :
  Contains (trimRev r) colon = Contains r colon.
Proof.
  functional induction (trimRev r); try done; rewrite IHs; simpl.
  - by rewrite (asciiSpace_colon c1).
  - apply space2_high in e2 as [?%high_byte ?%high_byte].
    by rewrite (proj1 (proj2 H)), (proj1 (proj2 H0)).
  - apply space3_high in e4 as (?%high_byte & ?%high_byte & ?%high_byte).
    by rewrite (proj1 (proj2 H)), (proj1 (proj2 H0)), (proj1 (proj2 H1)).
Qed.

Lemma Contains_TrimSpace (s : string) :
  Contains (TrimSpace s) colon = Contains s colon.
Proof.
  unfold TrimSpace, TrimRight.
  by rewrite Contains_rev, Contains_trimRev, Contains_rev, Contains_TrimLeft.
Qed.

(** No byte of a white space encoding is a colon. *)
Lemma space_bytes_colon (p : list ascii) :
  isSpaceBytes p = true → Forall (fun c => Ascii.eqb c colon = false) p.
Proof.
  destruct p as [|c1 [|c2 [|c3 [|c4 p]]]]; try done; intros H.
  - repeat constructor. by apply asciiSpace_colon.
  - apply space2_high in H as [?%high_byte ?%high_byte].
    repeat constructor; tauto.
  - apply space3_high in H as (?%high_byte & ?%high_byte & ?%high_byte).
    repeat constructor; tauto.
Qed.

Ltac colon_absurd :=
  match goal with
  | E : isSpaceBytes _ = true |- _ =>
      apply space_bytes_colon in E;
      rewrite ?Forall_cons in E; vm_compute in E;
      by intuition discriminate
  end.

Ltac length_absurd :=
  match goal with
  | H : TrimLeft ?s = _ |- _ =>
      pose proof (TrimLeft_length s) as L; rewrite H in L; simpl in L; lia
  | H : trimRev ?s = _ |- _ =>
      pose proof (trimRev_length s) as L; rewrite H in L; simpl in L; lia
  end.

Ltac trim_cases :=
  repeat match goal with
    | H : context [if isSpaceBytes ?l then _ else _] |- _ =>
        destruct (isSpaceBytes l) eqn:?
    | |- context [if isSpaceBytes ?l then _ else _] =>
        destruct (isSpaceBytes l) eqn:?
    end;
  try done; try colon_absurd; try length_absurd.

(** A string that starts with no white space keeps every byte when a
    colon and more bytes follow it. *)
Lemma TrimLeft_colon (a b : string) :
  TrimLeft a = a → TrimLeft (a +:+ String colon b) = a +:+ String colon b.
Proof.
  destruct a as [|c1 [|c2 [|c3 a]]]; rewrite ?sapp_cons, ?sapp_nil_l;
    intros H; rewrite TrimLeft_equation in H; rewrite TrimLeft_equation;
    destruct b as [|d1 [|d2 b]]; trim_cases.
Qed.

Lemma trimRev_colon (a b : string) :
  trimRev a = a → trimRev (a +:+ String colon b) = a +:+ String colon b.
Proof.
  destruct a as [|c1 [|c2 [|c3 a]]]; rewrite ?sapp_cons, ?sapp_nil_l;
    intros H; rewrite trimRev_equation in H; rewrite trimRev_equation;
    destruct b as [|d1 [|d2 b]]; trim_cases.
Qed.

Lemma TrimRight_nil : TrimRight "" = "".
Proof. reflexivity. Qed.

Lemma TrimSpace_nil : TrimSpace "" = "".
Proof. reflexivity. Qed.

(** A string that trimming leaves alone is left alone at either end. *)
Lemma TrimSpace_fix (s : string) :
  TrimSpace s = s → TrimLeft s = s ∧ trimRev (String.rev s) = String.rev s.
Proof.
  intros H. unfold TrimSpace in H.
  assert (TrimLeft s = s) as HL.
  { destruct (TrimLeft_split s) as (p & Hp & Hs).
    pose proof (TrimRight_length (TrimLeft s)) as L. rewrite H in L.
    rewrite Hs in L at 1. rewrite sapp_length in L.
    destruct p; [done|simpl in L; lia]. }
  split; [done|]. rewrite HL in H. unfold TrimRight in H.
  rewrite <- H at 2. by rewrite srev_involutive.
Qed.

(** The line [user:pass] of two trimmed fields is itself trimmed. *)
Lemma TrimSpace_record (u c : string) :
  TrimSpace u = u → TrimSpace c = c →
  TrimSpace (u +:+ String colon c) = u +:+ String colon c.
Proof.
  intros [Hu _]%TrimSpace_fix [_ Hc]%TrimSpace_fix.
  unfold TrimSpace, TrimRight. rewrite (TrimLeft_colon _ _ Hu).
  rewrite srev_app_distr, srev_cons, sapp_assoc, sapp_cons, sapp_nil_l.
  rewrite (trimRev_colon _ _ Hc).
  by rewrite srev_app_distr, srev_cons, !srev_involutive, sapp_assoc.
Qed.

(** A line with a colon is not blank. *)
Lemma TrimSpace_colon_not_blank (s : string) :
  Contains s colon = true → TrimSpace s ≠ "".
Proof.
  intros H E. rewrite <- Contains_TrimSpace, E in H. done.
Qed.

(** Every line of a text of white space is blank. *)
Lemma white_lines_blank (s : string) :
  white s → Forall (fun l => TrimLeft l = "") (Split s LF).
Proof.
  induction 1 as [|c p Hc _ IH|c1 c2 p Hc _ IH|c1 c2 c3 p Hc _ IH].
  - by repeat constructor.
  - simpl. destruct (Ascii.eqb c LF) eqn:E; [by constructor|].
    destruct (Split p LF) as [|l ls] eqn:Es; [by apply Split_not_nil in Es|].
    inversion_clear IH.
    constructor; [|done]. by rewrite TrimLeft_equation, Hc.
  - pose proof (space2_not1 _ _ Hc) as H1.
    apply space2_high in Hc as Hh. destruct Hh as [Ha%high_byte Hb%high_byte].
    simpl. rewrite (proj2 (proj2 Ha)), (proj2 (proj2 Hb)).
    destruct (Split p LF) as [|l ls] eqn:Es; [by apply Split_not_nil in Es|].
    inversion_clear IH.
    constructor; [|done]. by rewrite TrimLeft_equation, H1, Hc.
  - pose proof (space3_not1 _ _ _ Hc) as H1.
    pose proof (space3_not2 _ _ _ Hc) as H2.
    apply space3_high in Hc as Hh.
    destruct Hh as (Ha%high_byte & Hb%high_byte & Hd%high_byte).
    simpl. rewrite (proj2 (proj2 Ha)), (proj2 (proj2 Hb)), (proj2 (proj2 Hd)).
    destruct (Split p LF) as [|l ls] eqn:Es; [by apply Split_not_nil in Es|].
    inversion_clear IH.
    constructor; [|done]. by rewrite TrimLeft_equation, H1, H2, Hc.
Qed.

End trim_facts.

(** * Facts about [crypto/sha1]: the digest of [Write] and [Sum] is SHA-1 *)
Section sha1_facts.
Import sha1.

Implicit Types (hs : Z * Z * Z * Z * Z) (M p : list Z) (d : digest).

Lemma block_S n hs p :
  block (S n) hs p = block n (blockChunk hs (take chunk p)) (drop chunk p).
Proof. reflexivity. Qed.

(** The chunks of [A ++ B] are those of [A], then those of [B], when [A]
    is a whole number of chunks. *)
Lemma block_app a b hs A B :
  length A = (chunk * a)%nat →
  block (a + b) hs (A ++ B) = block b (block a hs A) B.
Proof.
  revert hs A. induction a as [|a IH]; intros hs A HA.
  - destruct A; [done|simpl in HA; lia].
  - rewrite Nat.add_succ_l, !block_S.
    assert (chunk ≤ length A)%nat as Hle by lia.
    rewrite take_app_le, drop_app_le by done.
    apply IH. rewrite length_drop. lia.
Qed.

Lemma block_whole a hs A B :
  length A = (chunk * a)%nat → block a hs (A ++ B) = block a hs A.
Proof.
  intros HA. rewrite <- (Nat.add_0_r a) at 1. by rewrite block_app.
Qed.

Lemma chunk_pos : (chunk ≠ 0)%nat.
Proof. done. Qed.

Lemma written_New : written New [].
Proof. done. Qed.

(** [Write] keeps the digest in step with the bytes written. *)
Lemma written_Write d M p : written d M → written (Write d p).1 (M ++ p).
Proof.
  intros (Hh & Hx & Hl). unfold written, Write. cbn [fst h x len].
  set (a := (length M / chunk)%nat) in *.
  assert (length (take (chunk * a) M) = (chunk * a)%nat) as HA.
  { rewrite length_take. pose proof (Nat.Div0.mul_div_le (length M) chunk).
    fold a in H. lia. }
  assert (length (M ++ p) / chunk = a + length (x d ++ p) / chunk)%nat as Hn.
  { rewrite Hx, !length_app, length_drop.
    pose proof (Nat.Div0.mul_div_le (length M) chunk) as Hle. fold a in Hle.
    replace (length M + length p)%nat
      with (a * chunk + (length M - chunk * a + length p))%nat by lia.
    by rewrite Nat.div_add_l. }
  assert (M ++ p = take (chunk * a) M ++ (x d ++ p)) as HM.
  { by rewrite Hx, app_assoc, take_drop. }
  split_and!.
  - rewrite Hn, HM. rewrite block_app by done.
    rewrite Hh. rewrite <- (take_drop (chunk * a) M) at 1.
    by rewrite (block_whole a _ (take (chunk * a) M)).
  - rewrite Hn, HM.
    rewrite Nat.mul_add_distr_l, drop_app_add' by done. f_equal. lia.
  - rewrite Hl, length_app, Nat2Z.inj_add. by rewrite Zplus_mod_idemp_l.
Qed.

(** The padding of [checkSum] is the padding of the standard. *)
Lemma checkSum_padding (n : nat) :
  let l := Z.of_nat n mod 2 ^ 64 in
  0x80 :: repeat 0 ((if (l mod 64 <? 56)%Z then Z.to_nat (56 - l mod 64)%Z
                     else Z.to_nat (64 + 56 - l mod 64)%Z) - 1)%nat
  = padding n.
Proof.
  intros l. unfold padding. do 2 f_equal.
  assert (l mod 64 = Z.of_nat (n mod 64)) as ->.
  { unfold l. rewrite Z.mod_mod_divide by (by exists (2 ^ 58)).
    by rewrite Nat2Z.inj_mod. }
  assert (n mod 64 < 64)%nat as Hr by (by apply Nat.mod_upper_bound).
  set (r := (n mod 64)%nat) in *. clearbody r.
  destruct (Z.ltb_spec (Z.of_nat r) 56).
  - rewrite <- (Nat.mod_unique (119 - r) 64 1 (55 - r)); lia.
  - rewrite <- (Nat.mod_unique (119 - r) 64 0 (119 - r)); lia.
Qed.

(** The digest that [Sum] returns after one [Write] on a new [hash.Hash]
    is the SHA-1 digest of the bytes written. *)
Lemma Sum_Write_SHA1 p : Sum (Write New p).1 [] = SHA1 p.
Proof.
  pose proof (written_Write _ _ p written_New) as Hw. rewrite app_nil_l in Hw.
  unfold Sum, checkSum. rewrite app_nil_l.
  destruct Hw as (Hh & Hx & Hl).
  set (d := (Write New p).1) in *.
  rewrite Hl. rewrite (checkSum_padding (length p)).
  assert (written d p) as Hw by done.
  apply (written_Write _ _ (padding (length p))) in Hw.
  apply (written_Write _ _
           (PutUint64 ((Z.of_nat (length p) mod 2 ^ 64 * 8) mod 2 ^ 64))) in Hw.
  destruct Hw as (Hh2 & _ & _). rewrite Hh2.
  rewrite Zmult_mod_idemp_l, <- app_assoc. reflexivity.
Qed.

End sha1_facts.

(** * Facts about the loop of [newPasswordFile] *)
Section loop_facts.

Implicit Types (l : string) (ls : list string) (f : passwordFile).

Lemma loop_blank l ls f :
  blank l → newPasswordFile_loop (l :: ls) f = newPasswordFile_loop ls f.
Proof. intros H. simpl. by rewrite decide_True. Qed.

Lemma loop_malformed l ls f :
  malformed l → newPasswordFile_loop (l :: ls) f = (None, Some errTokens).
Proof.
  intros [H1 H2]. simpl. rewrite decide_False by done.
  by rewrite decide_True.
Qed.

Lemma loop_duplicate l ls f :
  ¬ blank l → length (fields l) = 2%nat →
  is_Some (passwords f !! username_of l) →
  newPasswordFile_loop (l :: ls) f = (None, Some (errExists (username_of l))).
Proof.
  intros H1 H2 [c Hc]. simpl. rewrite decide_False by done.
  rewrite decide_False by (by intros ?). fold (fields l).
  unfold username_of, credential_of in *. by rewrite Hc.
Qed.

Lemma loop_entry l ls f :
  ¬ blank l → length (fields l) = 2%nat →
  passwords f !! username_of l = None →
  newPasswordFile_loop (l :: ls) f =
  newPasswordFile_loop ls
    {| passwords := <[username_of l := credential_of l]> (passwords f) |}.
Proof.
  intros H1 H2 Hc. simpl. rewrite decide_False by done.
  rewrite decide_False by (by intros ?). fold (fields l).
  unfold username_of, credential_of in *. by rewrite Hc.
Qed.

(** The four ways a line is met. *)
Lemma line_cases l f :
  blank l ∨ malformed l
  ∨ (¬ blank l ∧ length (fields l) = 2%nat
     ∧ is_Some (passwords f !! username_of l))
  ∨ (¬ blank l ∧ length (fields l) = 2%nat
     ∧ passwords f !! username_of l = None).
Proof.
  destruct (decide (blank l)); [by left|].
  destruct (decide (length (fields l) = 2%nat)); [|by right; left].
  destruct (passwords f !! username_of l) eqn:E; [|by right; right; right].
  right; right; left. by eauto.
Qed.

(** Reading [pre ++ rest] is reading [pre] and, if that went well, [rest]. *)
Lemma loop_app pre rest f :
  newPasswordFile_loop (pre ++ rest) f =
  match newPasswordFile_loop pre f with
  | (Some f', _) => newPasswordFile_loop rest f'
  | r => r
  end.
Proof.
  revert f. induction pre as [|l pre IH]; intros f; [done|].
  rewrite <- app_comm_cons.
  destruct (line_cases l f) as [H|[H|[(H1 & H2 & H3)|(H1 & H2 & H3)]]].
  - by rewrite !loop_blank.
  - by rewrite !loop_malformed.
  - by rewrite !loop_duplicate.
  - by rewrite !loop_entry.
Qed.

(** The loop ends in a file and no error, or in one of its two errors and
    no file. *)
Lemma loop_shape ls f :
  (∃ f', newPasswordFile_loop ls f = (Some f', None))
  ∨ newPasswordFile_loop ls f = (None, Some errTokens)
  ∨ ∃ u, newPasswordFile_loop ls f = (None, Some (errExists u)).
Proof.
  revert f. induction ls as [|l ls IH]; intros f; [by left; eexists|].
  destruct (line_cases l f) as [H|[H|[(H1 & H2 & H3)|(H1 & H2 & H3)]]].
  - rewrite loop_blank by done. apply IH.
  - rewrite loop_malformed by done. by right; left.
  - rewrite loop_duplicate by done. right; right. by eexists.
  - rewrite loop_entry by done. apply IH.
Qed.

Lemma entries_nil : entries [] = [].
Proof. reflexivity. Qed.

Lemma entries_blank l ls : blank l → entries (l :: ls) = entries ls.
Proof. intros H. unfold entries. by rewrite filter_cons_False by tauto. Qed.

Lemma entries_cons l ls :
  ¬ blank l →
  entries (l :: ls) = (username_of l, credential_of l) :: entries ls.
Proof. intros H. unfold entries. by rewrite filter_cons_True. Qed.

Lemma entries_app ls1 ls2 : entries (ls1 ++ ls2) = entries ls1 ++ entries ls2.
Proof. unfold entries. by rewrite filter_app, fmap_app. Qed.

Lemma errTokens_errExists u : errTokens ≠ errExists u.
Proof. done. Qed.

(** When the loop ends well: every line is blank or of two fields, no
    username comes twice or is in the file already, and the file gains
    the entries of the lines. *)
Lemma loop_ok_inv ls f f' :
  newPasswordFile_loop ls f = (Some f', None) →
  Forall (fun l => blank l ∨ length (fields l) = 2%nat) ls
  ∧ NoDup (entries ls).*1
  ∧ (∀ u, u ∈ (entries ls).*1 → passwords f !! u = None)
  ∧ passwords f' = list_to_map (entries ls) ∪ passwords f.
Proof.
  revert f. induction ls as [|l ls IH]; intros f.
  - intros [= <-]. split_and!; [constructor|constructor|set_solver|].
    by rewrite entries_nil, list_to_map_nil, (left_id_L ∅ (∪)).
  - destruct (line_cases l f) as [H|[H|[(H1 & H2 & H3)|(H1 & H2 & H3)]]].
    + rewrite loop_blank, entries_blank by done.
      intros (? & ? & ? & ?)%IH. split_and!; auto.
    + by rewrite loop_malformed.
    + by rewrite loop_duplicate.
    + rewrite loop_entry, entries_cons by done.
      intros (Hf & Hn & Hu & Hp)%IH. simpl in *.
      assert (username_of l ∉ (entries ls).*1) as Hnew.
      { intros Hin. specialize (Hu _ Hin). by rewrite lookup_insert_eq in Hu. }
      split_and!; [by auto|by constructor| |].
      * intros u [->|Hin]%elem_of_cons; [done|].
        specialize (Hu _ Hin).
        by apply lookup_insert_None in Hu as [? _].
      * rewrite Hp. rewrite <- insert_union_l, <- insert_union_r; [done|].
        by apply not_elem_of_list_to_map.
Qed.

Lemma loop_ok ls f :
  Forall (fun l => blank l ∨ length (fields l) = 2%nat) ls →
  NoDup (entries ls).*1 →
  (∀ u, u ∈ (entries ls).*1 → passwords f !! u = None) →
  newPasswordFile_loop ls f =
  (Some {| passwords := list_to_map (entries ls) ∪ passwords f |}, None).
Proof.
  revert f. induction ls as [|l ls IH]; intros f Hf Hn Hu.
  - rewrite entries_nil, list_to_map_nil, (left_id_L ∅ (∪)).
    by destruct f.
  - inversion_clear Hf as [|? ? Hl Hls].
    destruct (decide (blank l)) as [Hb|Hb].
    + rewrite loop_blank, entries_blank in * by done. by apply IH.
    + destruct Hl as [?|Hl]; [done|].
      rewrite entries_cons in * by done. simpl in Hn, Hu.
      apply NoDup_cons in Hn as [Hnew Hn].
      rewrite loop_entry by (try done; apply Hu; left).
      rewrite IH; [simpl|done|done|].
      * rewrite <- insert_union_l, <- insert_union_r; [done|].
        by apply not_elem_of_list_to_map.
      * intros u Hin. simpl. apply lookup_insert_None. split.
        -- apply Hu. by right.
        -- by intros <-.
Qed.

(** The error of a malformed line comes from a malformed line. *)
Lemma loop_tokens_inv ls f :
  newPasswordFile_loop ls f = (None, Some errTokens) →
  ∃ l, l ∈ ls ∧ malformed l.
Proof.
  revert f. induction ls as [|l ls IH]; intros f; [done|].
  destruct (line_cases l f) as [H|[H|[(H1 & H2 & H3)|(H1 & H2 & H3)]]].
  - rewrite loop_blank by done. intros (l' & ? & ?)%IH.
    exists l'. split; [by right|done].
  - intros _. exists l. split; [by left|done].
  - by rewrite loop_duplicate.
  - rewrite loop_entry by done. intros (l' & ? & ?)%IH.
    exists l'. split; [by right|done].
Qed.

Lemma repeated_cons u l ls : repeated u ls → repeated u (l :: ls).
Proof.
  intros (pre & l1 & mid & l2 & post & -> & ?).
  by exists (l :: pre), l1, mid, l2, post.
Qed.

(** The error of a duplicate names a username that a non-blank line
    carries, and that the file held before or an earlier line set. *)
Lemma loop_exists_inv ls f u :
  newPasswordFile_loop ls f = (None, Some (errExists u)) →
  (∃ pre l post, ls = pre ++ l :: post ∧ ¬ blank l ∧ username_of l = u
                 ∧ is_Some (passwords f !! u))
  ∨ repeated u ls.
Proof.
  revert f. induction ls as [|l ls IH]; intros f; [done|].
  destruct (line_cases l f) as [H|[H|[(H1 & H2 & H3)|(H1 & H2 & H3)]]].
  - rewrite loop_blank by done.
    intros [(pre & l' & post & -> & ?)|?%(repeated_cons _ l)]%IH; [|by right].
    left. by exists (l :: pre), l', post.
  - by rewrite loop_malformed.
  - rewrite loop_duplicate by done. intros [= <-].
    left. by exists [], l, ls.
  - rewrite loop_entry by done.
    intros [(pre & l' & post & -> & Hb & Hu & Hs)|?%(repeated_cons _ l)]%IH;
      [|by right].
    simpl in Hs. destruct (decide (username_of l = u)) as [E|E].
    + right. by exists [], l, pre, l', post.
    + rewrite lookup_insert_ne in Hs by done.
      left. by exists (l :: pre), l', post.
Qed.

End loop_facts.

(** * Facts about the loops over the map *)
Section range_facts.

Implicit Types (m : gmap string string) (l : list (string * string)).

Lemma range_to_list m : range m (map_to_list m).
Proof. by unfold range. Qed.

Lemma range_length m l : range m l → length l = size m.
Proof. unfold range. intros ->. apply length_map_to_list. Qed.

Lemma range_NoDup m l : range m l → NoDup l.*1.
Proof. unfold range. intros ->. apply NoDup_fst_map_to_list. Qed.

Lemma range_list_to_map m l : range m l → list_to_map l = m.
Proof.
  intros H. rewrite <- (list_to_map_to_list m).
  apply list_to_map_proper; [by eapply range_NoDup|done].
Qed.

Lemma range_elem_of m l u c : range m l → (u, c) ∈ l ↔ m !! u = Some c.
Proof. unfold range. intros ->. apply elem_of_map_to_list. Qed.

Lemma range_Forall m l (P : string → string → Prop) :
  range m l → map_Forall P m → Forall (fun kv => P kv.1 kv.2) l.
Proof.
  intros H HP. apply Forall_forall. intros [u c] Hin. simpl.
  apply (HP u c). by eapply range_elem_of.
Qed.

(** The loop of [ListUsers] collects the usernames in the order met. *)
Lemma ListUsers_range_fst l : ListUsers_range l = (l.*1, None).
Proof.
  unfold ListUsers_range. f_equal.
  assert (∀ acc, foldl (fun users kv => users ++ [kv.1]) acc l = acc ++ l.*1)
    as H; [|apply H].
  induction l as [|kv l IH]; intros acc; simpl; [by rewrite app_nil_r|].
  by rewrite IH, <- app_assoc.
Qed.

Lemma cat_cons (x : string) (xs : list string) : cat (x :: xs) = x +:+ cat xs.
Proof. reflexivity. Qed.

Lemma record_line (kv : string * string) :
  record kv = line kv +:+ String LF "".
Proof.
  unfold record, line.
  by rewrite !sapp_assoc, !sapp_cons, !sapp_nil_l.
Qed.

(** The loop of [Bytes] writes the records one after the other. *)
Lemma Bytes_range_cat l :
  String.string_of_list_byte (Bytes_range l) = cat (record <$> l).
Proof.
  unfold Bytes_range. rewrite String.string_of_list_byte_of_string.
  assert (∀ acc, foldl (fun buf kv => buf +:+ record kv) acc l
                 = acc +:+ cat (record <$> l)) as H; [|apply H].
  induction l as [|kv l IH]; intros acc; [by rewrite sapp_nil_r|].
  rewrite fmap_cons, cat_cons. simpl. by rewrite IH, sapp_assoc.
Qed.

Lemma Contains_line_LF (kv : string * string) :
  Contains kv.1 LF = false → Contains kv.2 LF = false →
  Contains (line kv) LF = false.
Proof.
  intros H1 H2. unfold line. rewrite Contains_app, H1. simpl. by rewrite H2.
Qed.

(** Without newlines in the fields, the text of [Bytes] splits into the
    lines of its records and the empty rest after the last newline. *)
Lemma Split_records l :
  Forall (fun kv => Contains kv.1 LF = false ∧ Contains kv.2 LF = false) l →
  Split (cat (record <$> l)) LF = (line <$> l) ++ [""].
Proof.
  induction 1 as [|kv l [H1 H2] _ IH]; [done|].
  rewrite !fmap_cons, cat_cons, record_line, sapp_assoc, sapp_cons, sapp_nil_l.
  rewrite Split_app_sep by (by apply Contains_line_LF). by rewrite IH.
Qed.

Lemma line_not_blank (kv : string * string) : ¬ blank (line kv).
Proof.
  apply TrimSpace_colon_not_blank. unfold line.
  rewrite Contains_app. simpl. by rewrite orb_true_r.
Qed.

(** The line of a record of two well-formed fields reads back as them. *)
Lemma line_fields (kv : string * string) :
  Contains kv.1 colon = false → Contains kv.2 colon = false →
  TrimSpace kv.1 = kv.1 → TrimSpace kv.2 = kv.2 →
  fields (line kv) = [kv.1; kv.2].
Proof.
  intros H1 H2 T1 T2. unfold fields, line.
  rewrite TrimSpace_record by done.
  rewrite Split_app_sep by done. by rewrite Split_no_sep.
Qed.

End range_facts.

(** * The model on known values *)
Section known_values.

(** The digests of FIPS 180: ["abc"], the empty message and the message
    of two chunks. *)
Example SHA1_abc :
  hex (sha1.SHA1 (bytes_of_string "abc"))
  = "a9993e364706816aba3e25717850c26c9cd0d89d".
Proof. vm_compute. reflexivity. Qed.

Example SHA1_empty :
  hex (sha1.SHA1 []) = "da39a3ee5e6b4b0d3255bfef95601890afd80709".
Proof. vm_compute. reflexivity. Qed.

Example SHA1_two_chunks :
  hex (sha1.SHA1 (bytes_of_string
         "abcdbcdecdefdefgefghfghighijhijkijkljklmklmnlmnomnopnopq"))
  = "84983e441c3bd26ebaae4aa1f95129e5e54670f1".
Proof. vm_compute. reflexivity. Qed.

(** The same digest comes out of two calls of [Write]. *)
Example SHA1_two_writes :
  sha1.Sum (sha1.Write (sha1.Write sha1.New (bytes_of_string "sec")).1
                       (bytes_of_string "ret")).1 []
  = sha1.SHA1 (bytes_of_string "secret").
Proof. vm_compute. reflexivity. Qed.

(** The texts of RFC 4648. *)
Example base64_rfc :
  base64.EncodeToString (bytes_of_string "f") = "Zg=="
  ∧ base64.EncodeToString (bytes_of_string "fo") = "Zm8="
  ∧ base64.EncodeToString (bytes_of_string "foo") = "Zm9v"
  ∧ base64.EncodeToString (bytes_of_string "foobar") = "Zm9vYmFy".
Proof. vm_compute. done. Qed.

(** [TrimSpace] drops ASCII white space and the encodings of U+00A0 and
    U+2003, and keeps a lone byte [0xA0], which is no encoding. *)
Example TrimSpace_ascii : TrimSpace "  a b  " = "a b".
Proof. vm_compute. reflexivity. Qed.

Example TrimSpace_unicode :
  TrimSpace (String "194" (String "160" ("ab" +:+
               String "226" (String "128" (String "131" "")))))
  = "ab".
Proof. vm_compute. reflexivity. Qed.

Example TrimSpace_lone_byte :
  TrimSpace (String "160" "ab") = String "160" "ab".
Proof. vm_compute. reflexivity. Qed.

Example Split_three : Split "alice:x:y" colon = ["alice"; "x"; "y"].
Proof. reflexivity. Qed.

Example Split_empty : Split "" LF = [""].
Proof. reflexivity. Qed.

(** The decodes of the specification. *)
Example decode_two_users :
  newPasswordFile (text ["alice:{SHA}abc"; "bob:{SHA}def"])
  = (Some alice_bob, None)
  ∧ size (passwords alice_bob) = 2%nat
  ∧ ListUsers_run alice_bob = (["alice"; "bob"], None).
Proof. vm_compute. done. Qed.

Example decode_three_fields :
  newPasswordFile (text ["alice:x:y"]) = (None, Some errTokens).
Proof. vm_compute. reflexivity. Qed.

Example decode_same_user :
  newPasswordFile (text ["alice:x"; "alice:y"])
  = (None, Some (errExists "alice")).
Proof. vm_compute. reflexivity. Qed.

End known_values.

(** * The claims *)

(** ** Encode then decode *)
Section roundtrip.

Lemma blank_nil : blank "".
Proof. reflexivity. Qed.

Lemma well_formed_entry_line (kv : string * string) :
  well_formed_field kv.1 → well_formed_field kv.2 →
  ¬ blank (line kv) ∧ length (fields (line kv)) = 2%nat
  ∧ username_of (line kv) = kv.1 ∧ credential_of (line kv) = kv.2.
Proof.
  intros (_ & C1 & _ & T1) (_ & C2 & _ & T2).
  split; [apply line_not_blank|].
  unfold username_of, credential_of. by rewrite line_fields.
Qed.

(** The lines that [Bytes] writes for well-formed entries stand for
    these entries. *)
Lemma entries_lines (l : list (string * string)) :
  Forall (fun kv => well_formed_field kv.1 ∧ well_formed_field kv.2) l →
  Forall (fun x => blank x ∨ length (fields x) = 2%nat) ((line <$> l) ++ [""])
  ∧ entries ((line <$> l) ++ [""]) = l.
Proof.
  induction 1 as [|kv l [H1 H2] _ [IH1 IH2]].
  - split; [repeat constructor; by left|].
    rewrite fmap_nil, app_nil_l. by rewrite entries_blank by apply blank_nil.
  - destruct (well_formed_entry_line kv H1 H2) as (Hb & Hf & Hu & Hc).
    rewrite fmap_cons, <- app_comm_cons. split; [constructor; auto|].
    rewrite entries_cons by done. rewrite Hu, Hc, IH2. by destruct kv.
Qed.

(** C1.  For every store whose usernames and credentials are well formed
    (not empty, without [':'] and newline, left alone by trimming), every
    byte sequence that [Bytes] may return decodes without error, and
    [newPasswordFile] returns a store with the same map from usernames
    to credentials, whatever the order in which [Bytes] wrote the
    entries. *)
Theorem decode_encode_roundtrip (f : passwordFile) (out : list byte) :
  well_formed f → Bytes f out → newPasswordFile out = (Some f, None).
Proof.
  intros Hwf (l & Hr & ->). unfold newPasswordFile.
  pose proof (range_Forall _ _ _ Hr Hwf) as Hl. simpl in Hl.
  rewrite Bytes_range_cat, Split_records.
  - destruct (entries_lines l Hl) as [H1 H2].
    rewrite loop_ok; rewrite ?H2; simpl.
    + rewrite (right_id_L ∅ (∪)), (range_list_to_map _ _ Hr). by destruct f.
    + done.
    + by eapply range_NoDup.
    + done.
  - eapply Forall_impl; [exact Hl|]. simpl.
    intros kv [(_ & _ & ? & _) (_ & _ & ? & _)]. done.
Qed.

Lemma decode_encode_roundtrip_witness :
  well_formed alice_bob ∧ Bytes alice_bob (Bytes_run alice_bob)
  ∧ newPasswordFile (Bytes_run alice_bob) = (Some alice_bob, None).
Proof.
  assert (well_formed alice_bob) as H1.
  { apply (bool_decide_unpack _). vm_compute. exact I. }
  assert (Bytes alice_bob (Bytes_run alice_bob)) as H2.
  { exists (map_to_list (passwords alice_bob)).
    split; [unfold range|]; reflexivity. }
  split; [exact H1|]. split; [exact H2|].
  exact (decode_encode_roundtrip alice_bob (Bytes_run alice_bob) H1 H2).
Defined.

End roundtrip.

(** ** [DeleteUser] *)
Section delete_user.

(** C6.  For every store and every username that its map does not hold,
    [DeleteUser] returns the error ["user %q does not exist"] for that
    username and leaves the store as it was. *)
Theorem DeleteUser_absent (f : passwordFile) (username : string) :
  passwords f !! username = None →
  DeleteUser f username = (f, Some (errNotExist username)).
Proof. intros H. unfold DeleteUser. by rewrite H. Qed.

Lemma DeleteUser_absent_witness :
  passwords alice_bob !! "carol" = None
  ∧ DeleteUser alice_bob "carol" = (alice_bob, Some (errNotExist "carol")).
Proof.
  split; [vm_compute; reflexivity|].
  apply (DeleteUser_absent alice_bob "carol"). vm_compute. reflexivity.
Defined.

(** [ListUsers] returns: the run in the order of [map_to_list] is one of
    its results. *)
Lemma ListUsers_returns (f : passwordFile) : ListUsers f (ListUsers_run f).
Proof. exists (map_to_list (passwords f)). split; [apply range_to_list|done]. Qed.

(** C7.  For every store and every username that its map holds,
    [DeleteUser] returns no error and removes that one entry: the
    username is absent afterwards and every other username keeps its
    credential.  [ListUsers] afterwards returns, and whatever it returns
    is without error, lists no username twice, does not list the deleted
    username and lists every other username of the store. *)
Theorem DeleteUser_present (f : passwordFile) (username : string) :
  is_Some (passwords f !! username) →
  ∃ f', DeleteUser f username = (f', None)
    ∧ passwords f' !! username = None
    ∧ (∀ u, u ≠ username → passwords f' !! u = passwords f !! u)
    ∧ size (passwords f') = pred (size (passwords f))
    ∧ (∃ r, ListUsers f' r)
    ∧ ∀ r, ListUsers f' r →
        r.2 = None ∧ NoDup r.1 ∧ (username ∉ r.1)
        ∧ ∀ u, u ≠ username → (u ∈ r.1 ↔ is_Some (passwords f !! u)).
Proof.
  intros [c Hc]. unfold DeleteUser. rewrite Hc. eexists. split; [done|].
  simpl. split_and!.
  - apply lookup_delete_eq.
  - intros u Hu. by apply lookup_delete_ne.
  - by apply map_size_delete_Some.
  - eexists. apply ListUsers_returns.
  - intros r (l & Hr & ->). rewrite ListUsers_range_fst. simpl in *.
    assert (∀ u, u ∈ l.*1 ↔ is_Some (delete username (passwords f) !! u))
      as Hin.
    { intros u. rewrite list_elem_of_fmap. split.
      - intros ([u' c'] & -> & H). exists c'. by eapply range_elem_of.
      - intros [c' H]. exists (u, c'). split; [done|].
        by eapply range_elem_of. }
    split_and!; [done|by eapply range_NoDup| |].
    + rewrite Hin, lookup_delete_eq. by intros [? ?].
    + intros u Hu. by rewrite Hin, lookup_delete_ne.
Qed.

Lemma DeleteUser_present_witness :
  is_Some (passwords alice_bob !! "alice")
  ∧ ∃ f', DeleteUser alice_bob "alice" = (f', None)
    ∧ passwords f' !! "alice" = None
    ∧ (∀ u, u ≠ "alice" → passwords f' !! u = passwords alice_bob !! u)
    ∧ size (passwords f') = pred (size (passwords alice_bob))
    ∧ (∃ r, ListUsers f' r)
    ∧ ∀ r, ListUsers f' r →
        r.2 = None ∧ NoDup r.1 ∧ ("alice" ∉ r.1)
        ∧ ∀ u, u ≠ "alice" → (u ∈ r.1 ↔ is_Some (passwords alice_bob !! u)).
Proof.
  assert (is_Some (passwords alice_bob !! "alice")) as H.
  { exists "{SHA}abc". vm_compute. reflexivity. }
  split; [exact H|]. exact (DeleteUser_present alice_bob "alice" H).
Defined.

End delete_user.

(** ** Decoding *)
Section decoding.

Implicit Types (l : string) (ls : list string) (f : passwordFile).

Lemma loop_all_blank ls f :
  Forall blank ls → newPasswordFile_loop ls f = (Some f, None).
Proof.
  induction 1 as [|l ls H _ IH]; [done|]. by rewrite loop_blank.
Qed.

Lemma TrimLeft_blank l : TrimLeft l = "" → blank l.
Proof. intros H. unfold blank, TrimSpace. by rewrite H. Qed.

(** The words of the specification against the vocabulary of the loop. *)
Lemma spec_entries ls :
  spec_entry <$> filter (fun l => l ≠ "") (TrimSpace <$> ls) = entries ls.
Proof.
  induction ls as [|l ls IH]; [done|]. rewrite fmap_cons.
  destruct (decide (blank l)) as [H|H].
  - rewrite entries_blank, filter_cons_False by (done || by intros []). done.
  - rewrite entries_cons, filter_cons_True by done.
    by rewrite fmap_cons, IH.
Qed.

Lemma spec_two_fields ls :
  Forall (fun l => length (Split l colon) = 2%nat)
         (filter (fun l => l ≠ "") (TrimSpace <$> ls))
  ↔ Forall (fun l => blank l ∨ length (fields l) = 2%nat) ls.
Proof.
  induction ls as [|l ls IH]; [by split; constructor|]. rewrite fmap_cons.
  destruct (decide (blank l)) as [H|H].
  - rewrite filter_cons_False by (by intros []).
    rewrite Forall_cons, IH. tauto.
  - rewrite filter_cons_True by done. rewrite !Forall_cons, IH.
    unfold fields. tauto.
Qed.

(** C9.  [newPasswordFile] does what the specification says of decode:
    it returns a store and no error exactly when every line that is not
    blank after trimming splits at [':'] into two fields and no trimmed
    username comes twice, and then the store is the one the
    specification describes (split on newline, trim each line, skip the
    blank ones, trim both fields), with one entry for each non-blank
    line. *)
Theorem newPasswordFile_spec (data : list byte) (f : passwordFile) :
  newPasswordFile data = (Some f, None)
  ↔ Forall (fun l => length (Split l colon) = 2%nat) (spec_lines data)
    ∧ NoDup (spec_entry <$> spec_lines data).*1
    ∧ passwords f = spec_decode data
    ∧ size (passwords f) = length (spec_lines data).
Proof.
  unfold newPasswordFile, spec_decode, spec_lines.
  set (ls := Split (String.string_of_list_byte data) LF).
  rewrite spec_two_fields, spec_entries.
  assert (length (filter (fun l => l ≠ "") (TrimSpace <$> ls))
          = length (entries ls)) as ->.
  { by rewrite <- spec_entries, length_fmap. }
  split.
  - intros (H1 & H2 & H3 & H4)%loop_ok_inv. simpl in H4.
    rewrite (right_id_L ∅ (∪)) in H4. split_and!; try done.
    rewrite H4, map_size_list_to_map by done. done.
  - intros (H1 & H2 & H3 & H4).
    rewrite loop_ok by done. simpl.
    rewrite (right_id_L ∅ (∪)), <- H3. by destruct f.
Qed.

Lemma newPasswordFile_spec_witness :
  newPasswordFile (text ["alice:{SHA}abc"; " "; "  bob : {SHA}def "])
  = (Some alice_bob, None)
  ∧ passwords alice_bob
    = spec_decode (text ["alice:{SHA}abc"; " "; "  bob : {SHA}def "])
  ∧ size (passwords alice_bob) = 2%nat.
Proof.
  assert (newPasswordFile (text ["alice:{SHA}abc"; " "; "  bob : {SHA}def "])
          = (Some alice_bob, None)) as H.
  { vm_compute. reflexivity. }
  split; [exact H|].
  destruct (proj1 (newPasswordFile_spec _ _) H) as (_ & _ & H3 & H4).
  split; [exact H3|exact H4].
Defined.

(** C10.  Every byte sequence made of white space only (newlines and
    other white space; the empty or nil sequence is one) decodes
    without error to the store without entries, and [ListUsers] of that
    store returns the empty sequence and no error, and nothing else. *)
Theorem decode_white (data : list byte) :
  white (String.string_of_list_byte data) →
  newPasswordFile data = (Some empty_file, None)
  ∧ ListUsers empty_file ([], None)
  ∧ ∀ r, ListUsers empty_file r → r = ([], None).
Proof.
  intros H. split_and!.
  - apply loop_all_blank. eapply Forall_impl; [by apply white_lines_blank|].
    apply TrimLeft_blank.
  - exists []. split; [|done]. unfold range. simpl.
    by rewrite map_to_list_empty.
  - intros r (l & Hl & ->). unfold range in Hl. simpl in Hl.
    rewrite map_to_list_empty in Hl. by apply Permutation_nil_r in Hl as ->.
Qed.

Lemma decode_white_witness :
  white (String.string_of_list_byte white_text)
  ∧ newPasswordFile white_text = (Some empty_file, None)
  ∧ ListUsers empty_file ([], None)
  ∧ ∀ r, ListUsers empty_file r → r = ([], None).
Proof.
  assert (white (String.string_of_list_byte white_text)) as H.
  { vm_compute. do 4 (apply white_1; [reflexivity|]).
    apply white_2; [reflexivity|]. apply white_1; [reflexivity|].
    apply white_nil. }
  split; [exact H|]. exact (decode_white white_text H).
Defined.

(** The nil slice that [Run] passes when the secret is created. *)
Example decode_nil : newPasswordFile [] = (Some empty_file, None).
Proof. reflexivity. Qed.

(** The claim C3 as it is stated fails: the malformed third line is
    never read, because the second line repeats [alice] and ends the
    decode with the other error. *)
Lemma decode_malformed_line_counterexample :
  "alice:x:y" ∈ Split (String.string_of_list_byte
                         (text ["alice:x"; "alice:y"; "alice:x:y"])) LF
  ∧ malformed "alice:x:y"
  ∧ newPasswordFile (text ["alice:x"; "alice:y"; "alice:x:y"])
    = (None, Some (errExists "alice"))
  ∧ errExists "alice" ≠ errTokens.
Proof.
  split_and!.
  - vm_compute. do 2 right. left.
  - split; vm_compute; congruence.
  - vm_compute. reflexivity.
  - discriminate.
Qed.

(** C3, amended.  For every input with a non-blank line that does not
    split at [':'] into exactly two fields, [newPasswordFile] returns an
    error and a nil store, so no partial result.  The error is
    ["invalid number of tokens"], unless a username stands on two lines
    before the malformed one: then the decode may have ended there, with
    ["username %q already exists"] for such a username. *)
Theorem decode_malformed_line
    (data : list byte) (pre post : list string) (bad : string) :
  Split (String.string_of_list_byte data) LF = pre ++ bad :: post →
  malformed bad →
  newPasswordFile data = (None, Some errTokens)
  ∨ ∃ u, newPasswordFile data = (None, Some (errExists u)) ∧ repeated u pre.
Proof.
  intros Hs Hbad. unfold newPasswordFile. rewrite Hs, loop_app.
  destruct (loop_shape pre empty_file) as [[f' H]|[H|[u H]]].
  - left. unfold empty_file in H. rewrite H. by apply loop_malformed.
  - left. by unfold empty_file in H; rewrite H.
  - right. exists u. unfold empty_file in H. rewrite H. split; [done|].
    apply loop_exists_inv in H as [(? & ? & ? & _ & _ & _ & [? H])|H];
      [|done].
    simpl in H. by rewrite lookup_empty in H.
Qed.

Lemma decode_malformed_line_witness :
  Split (String.string_of_list_byte (text ["alice:x:y"])) LF
  = [] ++ "alice:x:y" :: [""]
  ∧ malformed "alice:x:y"
  ∧ (newPasswordFile (text ["alice:x:y"]) = (None, Some errTokens)
     ∨ ∃ u, newPasswordFile (text ["alice:x:y"]) = (None, Some (errExists u))
            ∧ repeated u []).
Proof.
  assert (Split (String.string_of_list_byte (text ["alice:x:y"])) LF
          = [] ++ "alice:x:y" :: [""]) as H1.
  { vm_compute. reflexivity. }
  assert (malformed "alice:x:y") as H2.
  { split; vm_compute; congruence. }
  split; [exact H1|]. split; [exact H2|].
  exact (decode_malformed_line _ _ _ _ H1 H2).
Defined.

(** The claim C4 as it is stated fails: [alice] stands on the second and
    the third line, but the first line is malformed and ends the decode
    with the other error. *)
Lemma decode_duplicate_counterexample :
  repeated "alice" (Split (String.string_of_list_byte
                             (text ["bob"; "alice:x"; "alice:y"])) LF)
  ∧ newPasswordFile (text ["bob"; "alice:x"; "alice:y"])
    = (None, Some errTokens)
  ∧ ∀ u, errTokens ≠ errExists u.
Proof.
  split_and!.
  - exists ["bob"], "alice:x", [], "alice:y", [""].
    split_and!; try (vm_compute; congruence).
  - vm_compute. reflexivity.
  - apply errTokens_errExists.
Qed.

(** C4, amended.  For every input in which two non-blank lines carry the
    same username, [newPasswordFile] returns an error and a nil store, so
    neither entry is kept.  The error is ["username %q already exists"]
    for a username that stands on two lines up to the second of them,
    unless a line up to there is malformed: then it may be ["invalid
    number of tokens"]. *)
Theorem decode_duplicate_username
    (data : list byte) (pre mid post : list string) (l1 l2 : string) :
  Split (String.string_of_list_byte data) LF
  = pre ++ l1 :: mid ++ l2 :: post →
  ¬ blank l1 → ¬ blank l2 → username_of l1 = username_of l2 →
  (∃ u, newPasswordFile data = (None, Some (errExists u))
        ∧ repeated u (pre ++ l1 :: mid ++ [l2]))
  ∨ (newPasswordFile data = (None, Some errTokens)
     ∧ ∃ bad, bad ∈ pre ++ l1 :: mid ++ [l2] ∧ malformed bad).
Proof.
  intros Hs Hb1 Hb2 Hu. unfold newPasswordFile.
  assert (pre ++ l1 :: mid ++ l2 :: post
          = (pre ++ l1 :: mid ++ [l2]) ++ post) as E.
  { by rewrite <- !app_assoc, <- !app_comm_cons, <- app_assoc. }
  rewrite Hs, E, loop_app.
  destruct (loop_shape (pre ++ l1 :: mid ++ [l2]) empty_file)
    as [[f' H]|[H|[u H]]]; unfold empty_file in H; rewrite H.
  - exfalso. apply loop_ok_inv in H as (_ & Hn & _).
    rewrite entries_app, entries_cons, entries_app in Hn by done.
    rewrite (entries_cons l2), entries_nil in Hn by done.
    rewrite fmap_app, fmap_cons, fmap_app in Hn. simpl in Hn.
    apply NoDup_app in Hn as (_ & _ & Hn).
    apply NoDup_cons in Hn as [Hn _]. apply Hn.
    apply elem_of_app. right. rewrite Hu. by left.
  - right. split; [done|]. by eapply loop_tokens_inv.
  - left. exists u. split; [done|].
    apply loop_exists_inv in H as [(? & ? & ? & _ & _ & _ & [? H])|H];
      [|done].
    simpl in H. by rewrite lookup_empty in H.
Qed.

Lemma decode_duplicate_username_witness :
  Split (String.string_of_list_byte (text ["alice:x"; "alice:y"])) LF
  = [] ++ "alice:x" :: [] ++ "alice:y" :: [""]
  ∧ ¬ blank "alice:x" ∧ ¬ blank "alice:y"
  ∧ username_of "alice:x" = username_of "alice:y"
  ∧ ((∃ u, newPasswordFile (text ["alice:x"; "alice:y"])
           = (None, Some (errExists u))
           ∧ repeated u ([] ++ "alice:x" :: [] ++ ["alice:y"]))
     ∨ (newPasswordFile (text ["alice:x"; "alice:y"]) = (None, Some errTokens)
        ∧ ∃ bad, bad ∈ [] ++ "alice:x" :: [] ++ ["alice:y"] ∧ malformed bad)).
Proof.
  assert (Split (String.string_of_list_byte (text ["alice:x"; "alice:y"])) LF
          = [] ++ "alice:x" :: [] ++ "alice:y" :: [""]) as H1.
  { vm_compute. reflexivity. }
  assert (¬ blank "alice:x") as H2. { vm_compute. congruence. }
  assert (¬ blank "alice:y") as H3. { vm_compute. congruence. }
  assert (username_of "alice:x" = username_of "alice:y") as H4.
  { vm_compute. reflexivity. }
  split; [exact H1|]. split; [exact H2|]. split; [exact H3|].
  split; [exact H4|].
  exact (decode_duplicate_username _ _ _ _ _ _ H1 H2 H3 H4).
Defined.

End decoding.

(** ** [SetPassword] *)
Section set_password.

(** [Write] of a [sha1] digest returns a nil error. *)
Lemma Write_no_error (d : sha1.digest) (p : list Z) :
  (sha1.Write d p).2.2 = None.
Proof. reflexivity. Qed.

Lemma SetPassword_eq (f : passwordFile) (username password : string) :
  SetPassword f username password
  = ({| passwords := <[username := credential password]> (passwords f) |},
     None).
Proof.
  unfold credential. rewrite <- Sum_Write_SHA1.
  cbv beta iota zeta delta [SetPassword sha1.Write fst snd].
  reflexivity.
Qed.

(** C2.  For every store, username and password, [SetPassword] returns no
    error and sets the entry of the username to [{SHA}] followed by the
    padded standard base64 text of the SHA-1 digest of the password; the
    other entries stay.  For the password [secret] the credential is
    [{SHA}5en6G6MezRroT3XKqkdPOmY/BfQ=]. *)
Theorem SetPassword_sha (f : passwordFile) (username password : string) :
  ∃ f', SetPassword f username password = (f', None)
    ∧ passwords f' !! username
      = Some ("{SHA}" +:+
              base64.EncodeToString (sha1.SHA1 (bytes_of_string password)))
    ∧ (∀ u, u ≠ username → passwords f' !! u = passwords f !! u)
    ∧ passwords (SetPassword f username "secret").1 !! username
      = Some "{SHA}5en6G6MezRroT3XKqkdPOmY/BfQ=".
Proof.
  eexists. split; [apply SetPassword_eq|]. cbn [passwords]. split_and!.
  - apply lookup_insert_eq.
  - intros u Hu. by apply lookup_insert_ne.
  - rewrite SetPassword_eq. cbn [passwords fst]. rewrite lookup_insert_eq.
    apply (f_equal Some). vm_compute. reflexivity.
Qed.

(** The claim C5 as it is stated fails: a username with a colon is
    taken like any other. *)
Lemma SetPassword_invalid_counterexample :
  invalid_username "a:b"
  ∧ (SetPassword empty_file "a:b" "secret").2 = None
  ∧ passwords (SetPassword empty_file "a:b" "secret").1 !! "a:b"
    = Some "{SHA}5en6G6MezRroT3XKqkdPOmY/BfQ="
  ∧ (SetPassword empty_file "a:b" "secret").1 ≠ empty_file.
Proof.
  split_and!.
  - left. vm_compute. reflexivity.
  - vm_compute. reflexivity.
  - vm_compute. reflexivity.
  - vm_compute. congruence.
Qed.

(** C5, amended.  For every store and every username that holds a colon
    or a newline or is empty, [SetPassword] rejects nothing: it returns no
    error and sets the entry of that username to the credential of the
    password, as for any other username. *)
Theorem SetPassword_invalid_username
    (f : passwordFile) (username password : string) :
  invalid_username username →
  ∃ f', SetPassword f username password = (f', None)
    ∧ passwords f' !! username = Some (credential password).
Proof.
  intros _. eexists. split; [apply SetPassword_eq|].
  cbn [passwords]. apply lookup_insert_eq.
Qed.

Lemma SetPassword_invalid_username_witness :
  invalid_username ""
  ∧ ∃ f', SetPassword alice_bob "" "secret" = (f', None)
    ∧ passwords f' !! "" = Some (credential "secret").
Proof.
  assert (invalid_username "") as H. { right. right. reflexivity. }
  split; [exact H|].
  exact (SetPassword_invalid_username alice_bob "" "secret" H).
Defined.

End set_password.

(** ** [Bytes] *)
Section bytes.

Lemma Count_Split (s : string) (c : ascii) :
  Count s c = pred (length (Split s c)).
Proof. by rewrite Split_length. Qed.

(** The claim C8 as it is stated fails: [SetPassword] takes a username
    of two lines, and the one entry of the store is then written as two
    lines, the first of which is no record. *)
Lemma Bytes_lines_counterexample :
  size (passwords two_line_file) = 1%nat
  ∧ Bytes two_line_file (Bytes_run two_line_file)
  ∧ Split (String.string_of_list_byte (Bytes_run two_line_file)) LF
    = ["a"; "b:{SHA}5en6G6MezRroT3XKqkdPOmY/BfQ="; ""]
  ∧ Count (String.string_of_list_byte (Bytes_run two_line_file)) LF = 2%nat.
Proof.
  split_and!.
  - vm_compute. reflexivity.
  - exists (map_to_list (passwords two_line_file)).
    split; [unfold range|]; reflexivity.
  - vm_compute. reflexivity.
  - vm_compute. reflexivity.
Qed.

(** C8, amended.  For every store, what [Bytes] returns is one record per
    entry of the map, each the username, one [':'], the credential and a
    newline, and nothing else.  When no username and no credential holds a
    newline, these records are the lines of the output: a store of N
    entries gives exactly N lines, each ended by a newline, none of them
    blank. *)
Theorem Bytes_lines (f : passwordFile) (out : list byte) :
  Bytes f out →
  ∃ l, range (passwords f) l
    ∧ length l = size (passwords f)
    ∧ String.string_of_list_byte out = cat (record <$> l)
    ∧ (no_newline f →
       Split (String.string_of_list_byte out) LF = (line <$> l) ++ [""]
       ∧ Forall (fun x => ¬ blank x) (line <$> l)
       ∧ Count (String.string_of_list_byte out) LF = size (passwords f)).
Proof.
  intros (l & Hr & ->). exists l.
  split_and!; [done|by apply range_length|apply Bytes_range_cat|].
  intros Hn. rewrite Bytes_range_cat.
  assert (Split (cat (record <$> l)) LF = (line <$> l) ++ [""]) as E.
  { apply Split_records. by apply (range_Forall _ _ _ Hr Hn). }
  split_and!; [done| |].
  - apply Forall_fmap, Forall_forall. intros kv _. apply line_not_blank.
  - rewrite Count_Split, E, length_app, length_fmap. simpl.
    rewrite (range_length _ _ Hr). lia.
Qed.

Lemma Bytes_lines_witness :
  Bytes alice_bob (Bytes_run alice_bob)
  ∧ no_newline alice_bob
  ∧ ∃ l, range (passwords alice_bob) l
    ∧ length l = size (passwords alice_bob)
    ∧ String.string_of_list_byte (Bytes_run alice_bob) = cat (record <$> l)
    ∧ Split (String.string_of_list_byte (Bytes_run alice_bob)) LF
      = (line <$> l) ++ [""]
    ∧ Forall (fun x => ¬ blank x) (line <$> l)
    ∧ Count (String.string_of_list_byte (Bytes_run alice_bob)) LF
      = size (passwords alice_bob).
Proof.
  assert (Bytes alice_bob (Bytes_run alice_bob)) as H.
  { exists (map_to_list (passwords alice_bob)).
    split; [unfold range|]; reflexivity. }
  assert (no_newline alice_bob) as Hn.
  { apply (bool_decide_unpack _). vm_compute. exact I. }
  split; [exact H|]. split; [exact Hn|].
  destruct (Bytes_lines alice_bob (Bytes_run alice_bob) H)
    as (l & H1 & H2 & H3 & H4).
  destruct (H4 Hn) as (H5 & H6 & H7).
  exists l. repeat (split; [assumption|]). assumption.
Defined.

End bytes.

(** * Further properties of the credential file *)

(** ** The stores that [newPasswordFile] returns *)
Section decoded_store.

Implicit Types (l s : string) (ls : list string) (f : passwordFile).

Ltac trim_absurd :=
  match goal with
  | H : TrimLeft ?s = _ |- _ =>
      pose proof (TrimLeft_length s) as L; rewrite H in L; simpl in L; lia
  | H : trimRev ?s = _ |- _ =>
      pose proof (trimRev_length s) as L; rewrite H in L; simpl in L; lia
  end.

Ltac trim_tests :=
  repeat match goal with
    | H : context [if isSpaceBytes ?p then _ else _] |- _ =>
        destruct (isSpaceBytes p) eqn:?
    | |- context [if isSpaceBytes ?p then _ else _] =>
        destruct (isSpaceBytes p) eqn:?
    end;
  try done; try trim_absurd.

Ltac use_tests :=
  repeat match goal with
    | H : isSpaceBytes _ = false |- _ => rewrite H; clear H
    end.

Lemma TrimLeft_idem s : TrimLeft (TrimLeft s) = TrimLeft s.
Proof.
  functional induction (TrimLeft s); try done;
    rewrite TrimLeft_equation; by use_tests.
Qed.

Lemma trimRev_idem s : trimRev (trimRev s) = trimRev s.
Proof.
  functional induction (trimRev s); try done;
    rewrite trimRev_equation; by use_tests.
Qed.

(** A string that starts with no white space has no prefix that does. *)
Lemma TrimLeft_prefix (a b : string) :
  TrimLeft (a +:+ b) = a +:+ b → TrimLeft a = a.
Proof.
  destruct a as [|c1 [|c2 [|c3 a]]]; [done|..];
    rewrite ?sapp_cons, ?sapp_nil_l; intros H;
    rewrite TrimLeft_equation in H; rewrite TrimLeft_equation;
    destruct b as [|d1 [|d2 b]]; trim_tests.
Qed.

Lemma TrimRight_split s : ∃ q, white q ∧ s = TrimRight s +:+ q.
Proof.
  destruct (trimRev_split (String.rev s)) as (q & Hq & Hr).
  exists (String.rev q). split; [done|].
  unfold TrimRight. rewrite <- srev_app_distr, <- Hr.
  by rewrite srev_involutive.
Qed.

(** Trimming a trimmed string changes nothing. *)
Lemma TrimSpace_idem s : TrimSpace (TrimSpace s) = TrimSpace s.
Proof.
  unfold TrimSpace at 2 3.
  set (x := TrimLeft s). assert (TrimLeft x = x) as Hx by apply TrimLeft_idem.
  assert (TrimLeft (TrimRight x) = TrimRight x) as Hl.
  { destruct (TrimRight_split x) as (q & _ & Hq).
    apply (TrimLeft_prefix _ q). by rewrite <- Hq. }
  unfold TrimSpace. rewrite Hl. unfold TrimRight.
  by rewrite srev_involutive, trimRev_idem.
Qed.

(** Trimming brings in no byte that was not there. *)
Lemma Contains_TrimSpace_false s (c : ascii) :
  Contains s c = false → Contains (TrimSpace s) c = false.
Proof.
  destruct (TrimSpace_split s) as (p & q & _ & _ & Hs). intros H.
  rewrite Hs, !Contains_app in H.
  by apply orb_false_iff in H as [_ [? _]%orb_false_iff].
Qed.

Lemma Split_sub s (c c' : ascii) :
  Contains s c' = false →
  Forall (fun x => Contains x c' = false) (Split s c).
Proof.
  induction s as [|a s IH]; simpl; [by repeat constructor|].
  intros [Ha Hs]%orb_false_iff. specialize (IH Hs).
  destruct (Ascii.eqb a c); [by constructor|].
  destruct (Split s c) as [|x xs]; [repeat constructor; simpl; by rewrite Ha|].
  inversion_clear IH. constructor; [|done]. simpl. by rewrite Ha.
Qed.

(** Each field of a line without newline is stored clean. *)
Lemma field_clean l (n : nat) :
  Contains l LF = false → clean_field (TrimSpace (nth n (fields l) "")).
Proof.
  intros Hl.
  assert (Contains (nth n (fields l) "") colon = false
          ∧ Contains (nth n (fields l) "") LF = false) as [H1 H2].
  { destruct (nth_in_or_default n (fields l) "") as [Hin| ->]; [|done].
    apply list_elem_of_In in Hin.
    pose proof (Split_fields (TrimSpace l) colon) as F1.
    pose proof (Split_sub (TrimSpace l) colon LF
                  (Contains_TrimSpace_false _ _ Hl)) as F2.
    rewrite Forall_forall in F1, F2. split; [by apply F1|by apply F2]. }
  split_and!; [by apply Contains_TrimSpace_false..|apply TrimSpace_idem].
Qed.

Lemma entries_clean ls :
  Forall (fun l => Contains l LF = false) ls →
  Forall (fun kv => clean_field kv.1 ∧ clean_field kv.2) (entries ls).
Proof.
  intros H. unfold entries. apply Forall_fmap, Forall_forall.
  intros l [_ Hin]%list_elem_of_filter. simpl.
  pose proof (proj1 (Forall_forall _ _) H l Hin).
  split; by apply field_clean.
Qed.

(** The loop on newline-free lines builds a clean store. *)
Lemma loop_clean ls f :
  Forall (fun l => Contains l LF = false) ls →
  newPasswordFile_loop ls empty_file = (Some f, None) → clean f.
Proof.
  intros Hls (_ & _ & _ & Hp)%loop_ok_inv. simpl in Hp.
  rewrite (right_id_L ∅ (∪)) in Hp. unfold clean. rewrite Hp.
  intros u c Huc%elem_of_list_to_map_2.
  by apply (proj1 (Forall_forall _ _) (entries_clean _ Hls) (u, c)).
Qed.

Lemma decoded_clean_store (data : list byte) f :
  newPasswordFile data = (Some f, None) → clean f.
Proof. apply loop_clean, Split_fields. Qed.

(** X1.  Every store that [newPasswordFile] returns is clean: no username and
    no credential holds a [':'] or a newline, and each is left alone by
    trimming. *)
Theorem decoded_clean (data : list byte) f :
  newPasswordFile data = (Some f, None) → clean f.
Proof.
  unfold newPasswordFile. intros Hd.
  pose proof (Split_fields (String.string_of_list_byte data) LF) as Hls.
  intros u c Hu. exact (loop_clean _ _ Hls Hd u c Hu).
Qed.

Lemma decoded_clean_witness :
  newPasswordFile (text ["alice:{SHA}abc"; " "; "  bob : {SHA}def "])
  = (Some alice_bob, None)
  ∧ clean alice_bob.
Proof.
  assert (newPasswordFile (text ["alice:{SHA}abc"; " "; "  bob : {SHA}def "])
          = (Some alice_bob, None)) as H.
  { vm_compute. reflexivity. }
  split; [exact H|]. exact (decoded_clean _ _ H).
Defined.

End decoded_store.

(** ** Writing a store and reading it again *)
Section persistence.

Implicit Types (l : string) (ls : list string) (f : passwordFile).

Lemma clean_entry_line (kv : string * string) :
  clean_field kv.1 → clean_field kv.2 →
  ¬ blank (line kv) ∧ length (fields (line kv)) = 2%nat
  ∧ username_of (line kv) = kv.1 ∧ credential_of (line kv) = kv.2.
Proof.
  intros (C1 & _ & T1) (C2 & _ & T2).
  split; [apply line_not_blank|].
  unfold username_of, credential_of. by rewrite line_fields.
Qed.

Lemma entries_clean_lines (es : list (string * string)) :
  Forall (fun kv => clean_field kv.1 ∧ clean_field kv.2) es →
  Forall (fun x => blank x ∨ length (fields x) = 2%nat) ((line <$> es) ++ [""])
  ∧ entries ((line <$> es) ++ [""]) = es.
Proof.
  induction 1 as [|kv es [H1 H2] _ [IH1 IH2]].
  - split; [repeat constructor; by left|].
    rewrite fmap_nil, app_nil_l. by rewrite entries_blank by apply blank_nil.
  - destruct (clean_entry_line kv H1 H2) as (Hb & Hf & Hu & Hc).
    rewrite fmap_cons, <- app_comm_cons. split; [constructor; auto|].
    rewrite entries_cons by done. rewrite Hu, Hc, IH2. by destruct kv.
Qed.

(** What [Bytes] writes for a clean store reads back as that store. *)
Lemma clean_roundtrip f (out : list byte) :
  clean f → Bytes f out → newPasswordFile out = (Some f, None).
Proof.
  intros Hc (es & Hr & ->). unfold newPasswordFile.
  pose proof (range_Forall _ _ _ Hr Hc) as Hes. simpl in Hes.
  rewrite Bytes_range_cat, Split_records.
  - destruct (entries_clean_lines es Hes) as [H1 H2].
    rewrite loop_ok; rewrite ?H2; simpl.
    + rewrite (right_id_L ∅ (∪)), (range_list_to_map _ _ Hr). by destruct f.
    + done.
    + by eapply range_NoDup.
    + done.
  - eapply Forall_impl; [exact Hes|]. simpl.
    intros kv [(_ & ? & _) (_ & ? & _)]. done.
Qed.

(** X2.  Decode, encode, decode: whatever input [newPasswordFile] accepts,
    every output of [Bytes] for the store it returns is accepted too and
    gives the same store, also when the input had blank lines, white
    space around the fields or an empty username or credential. *)
Theorem decode_encode_decode (data out : list byte) f :
  newPasswordFile data = (Some f, None) → Bytes f out →
  newPasswordFile out = (Some f, None).
Proof.
  intros Hd (es & Hr & ->).
  pose proof (decoded_clean_store _ _ Hd) as Hc.
  apply clean_roundtrip; [exact Hc|]. by exists es.
Qed.

(** An input with blank lines, padded fields and an empty username. *)
Lemma decode_encode_decode_witness :
  newPasswordFile (text [" alice : x "; ""; ":y"; "bob:"])
  = (Some odd_file, None)
  ∧ Bytes odd_file (Bytes_run odd_file)
  ∧ newPasswordFile (Bytes_run odd_file) = (Some odd_file, None).
Proof.
  assert (newPasswordFile (text [" alice : x "; ""; ":y"; "bob:"])
          = (Some odd_file, None)) as H1.
  { vm_compute. reflexivity. }
  assert (Bytes odd_file (Bytes_run odd_file)) as H2.
  { eexists. split; [unfold range|]; reflexivity. }
  split; [exact H1|]. split; [exact H2|].
  exact (decode_encode_decode _ _ _ H1 H2).
Defined.

Lemma Split_text ls :
  Forall (fun l => Contains l LF = false) ls →
  Split (String.string_of_list_byte (text ls)) LF = ls ++ [""].
Proof.
  unfold text. rewrite String.string_of_list_byte_of_string.
  induction 1 as [|l ls Hl _ IH]; [done|].
  rewrite fmap_cons, cat_cons, sapp_assoc, sapp_cons, sapp_nil_l.
  rewrite Split_app_sep by done. by rewrite IH.
Qed.

Lemma entries_Permutation ls ls' : ls ≡ₚ ls' → entries ls ≡ₚ entries ls'.
Proof. intros H. unfold entries. by rewrite H. Qed.

(** The loop accepts the lines in any order, with the same store. *)
Lemma loop_Permutation ls ls' f :
  ls ≡ₚ ls' →
  newPasswordFile_loop ls empty_file = (Some f, None) →
  newPasswordFile_loop ls' empty_file = (Some f, None).
Proof.
  intros Hp (H1 & H2 & H3 & H4)%loop_ok_inv.
  pose proof (entries_Permutation _ _ Hp) as He.
  rewrite loop_ok.
  - do 2 f_equal. destruct f as [m]. simpl in *. rewrite H4. f_equal.
    f_equal. symmetry. by apply list_to_map_proper.
  - by rewrite <- Hp.
  - by rewrite <- He.
  - done.
Qed.

(** X3.  The order of the lines of a credential file does not matter: a text
    is accepted exactly when the text of the same lines in another order
    is, and both give the same store. *)
Theorem decode_order (ls ls' : list string) f :
  Forall (fun l => Contains l LF = false) ls → ls ≡ₚ ls' →
  newPasswordFile (text ls) = (Some f, None)
  ↔ newPasswordFile (text ls') = (Some f, None).
Proof.
  intros Hl Hp. assert (Forall (fun l => Contains l LF = false) ls') as Hl'.
  { by rewrite <- Hp. }
  unfold newPasswordFile. rewrite !Split_text by done.
  split; apply loop_Permutation; [by rewrite Hp|by rewrite Hp].
Qed.

Lemma decode_order_witness :
  Forall (fun l => Contains l LF = false) ["bob:{SHA}def"; ""; "alice:{SHA}abc"]
  ∧ ["bob:{SHA}def"; ""; "alice:{SHA}abc"]
    ≡ₚ ["alice:{SHA}abc"; "bob:{SHA}def"; ""]
  ∧ newPasswordFile (text ["alice:{SHA}abc"; "bob:{SHA}def"; ""])
    = (Some alice_bob, None).
Proof.
  assert (Forall (fun l => Contains l LF = false)
            ["bob:{SHA}def"; ""; "alice:{SHA}abc"]) as H1.
  { repeat constructor. }
  assert (["bob:{SHA}def"; ""; "alice:{SHA}abc"]
          ≡ₚ ["alice:{SHA}abc"; "bob:{SHA}def"; ""]) as H2.
  { apply Permutation_sym, perm_trans with ["bob:{SHA}def"; "alice:{SHA}abc"; ""].
    - apply perm_swap.
    - apply perm_skip, perm_swap. }
  assert (newPasswordFile (text ["bob:{SHA}def"; ""; "alice:{SHA}abc"])
          = (Some alice_bob, None)) as H3.
  { vm_compute. reflexivity. }
  split; [exact H1|]. split; [exact H2|].
  exact (proj1 (decode_order _ _ alice_bob H1 H2) H3).
Defined.

End persistence.

(** ** The credential that [SetPassword] stores *)
Section credential_facts.

(** Lists three elements at a time, as [EncodeToString] reads them. *)
Lemma list_ind3 {A} (P : list A → Prop) :
  P [] → (∀ a, P [a]) → (∀ a b, P [a; b]) →
  (∀ a b c l, P l → P (a :: b :: c :: l)) →
  ∀ l, P l.
Proof.
  intros H0 H1 H2 H3 l.
  assert (∀ n l, (length l ≤ n)%nat → P l) as H; [|by apply (H (length l))].
  clear l. induction n as [|n IH]; intros l Hl.
  - destruct l; [done|simpl in Hl; lia].
  - destruct l as [|a [|b [|c l]]]; [done..|].
    apply H3, IH. simpl in Hl. lia.
Qed.

Lemma enc_plain (v : Z) : plain (base64.enc v) = true.
Proof.
  unfold base64.enc.
  change 0x3F with (Z.ones 6). rewrite Z.land_ones by lia.
  pose proof (Z.mod_pos_bound v (2 ^ 6)) as Hb.
  assert (Z.to_nat (v mod 2 ^ 6) < 64)%nat as Hn by lia.
  revert Hn. generalize (Z.to_nat (v mod 2 ^ 6)). intros n Hn.
  do 64 (destruct n as [|n]; [vm_compute; reflexivity|]). lia.
Qed.

Lemma allPlain_app (a b : string) :
  allPlain (a +:+ b) = allPlain a && allPlain b.
Proof.
  induction a as [|c a IH]; [done|].
  rewrite sapp_cons. simpl. by rewrite IH, andb_assoc.
Qed.

(** The base64 text holds only plain bytes. *)
Lemma EncodeToString_plain (src : list Z) :
  allPlain (base64.EncodeToString src) = true.
Proof.
  induction src as [|a|a b|a b c src IH] using list_ind3;
    cbn [base64.EncodeToString allPlain]; rewrite ?enc_plain, ?IH; done.
Qed.

(** Its length: four bytes for three, the rest padded. *)
Lemma EncodeToString_length (src : list Z) :
  String.length (base64.EncodeToString src)
  = (4 * ((length src + 2) / 3))%nat.
Proof.
  induction src as [|a|a b|a b c src IH] using list_ind3; [done..|].
  cbn [base64.EncodeToString String.length length]. rewrite IH.
  replace (S (S (S (length src))) + 2)%nat
    with (length src + 2 + 1 * 3)%nat by lia.
  rewrite Nat.div_add by lia. lia.
Qed.

Lemma SHA1_length (msg : list Z) : length (sha1.SHA1 msg) = 20%nat.
Proof.
  unfold sha1.SHA1.
  destruct (sha1.block _ _ _) as [[[[h0 h1] h2] h3] h4]. reflexivity.
Qed.

Lemma plain_spec (c : ascii) :
  plain c = true →
  (code c < 0x80)%N ∧ asciiSpace c = false ∧ Ascii.eqb c colon = false.
Proof.
  unfold plain.
  intros [[H1%N.ltb_lt H2%negb_true_iff]%andb_true_iff H3%negb_true_iff]
    %andb_true_iff.
  done.
Qed.

Lemma plain_not_LF (c : ascii) : plain c = true → Ascii.eqb c LF = false.
Proof.
  intros (_ & H & _)%plain_spec.
  destruct (Ascii.eqb_spec c LF) as [->|]; [done|done].
Qed.

Lemma allPlain_Contains (s : string) :
  allPlain s = true → Contains s colon = false ∧ Contains s LF = false.
Proof.
  induction s as [|c s IH]; [done|]. simpl.
  intros [Hc Hs]%andb_true_iff. destruct (IH Hs) as [-> ->].
  rewrite (plain_not_LF _ Hc).
  by apply plain_spec in Hc as (_ & _ & ->).
Qed.

Lemma allPlain_rev (s : string) : allPlain (String.rev s) = allPlain s.
Proof.
  induction s as [|c s IH]; [done|].
  rewrite srev_cons, allPlain_app, IH. simpl.
  rewrite andb_true_r. apply andb_comm.
Qed.

(** A test of [TrimSpace] that meets a plain byte fails. *)
Lemma plain_no_space (p : list ascii) :
  Exists (fun c => plain c = true) p → isSpaceBytes p = false.
Proof.
  intros H. destruct (isSpaceBytes p) eqn:E; [|done]. exfalso.
  destruct p as [|c1 [|c2 [|c3 [|c4 p]]]]; try done.
  - apply Exists_cons in H as [(_ & H & _)%plain_spec|H%Exists_nil]; [|done].
    simpl in E. congruence.
  - apply space2_high in E as [E1 E2].
    repeat (apply Exists_cons in H as [(H & _)%plain_spec|H]; [lia|]).
    by apply Exists_nil in H.
  - apply space3_high in E as (E1 & E2 & E3).
    repeat (apply Exists_cons in H as [(H & _)%plain_spec|H]; [lia|]).
    by apply Exists_nil in H.
Qed.

Lemma plain_TrimLeft (s : string) : allPlain s = true → TrimLeft s = s.
Proof.
  destruct s as [|c1 s]; [done|]. simpl allPlain.
  intros [Hc _]%andb_true_iff. rewrite TrimLeft_equation.
  rewrite (plain_no_space [c1]) by (by left).
  destruct s as [|c2 s]; [done|].
  rewrite (plain_no_space [c1; c2]) by (by left).
  destruct s as [|c3 s]; [done|].
  by rewrite (plain_no_space [c1; c2; c3]) by (by left).
Qed.

Lemma plain_trimRev (s : string) : allPlain s = true → trimRev s = s.
Proof.
  destruct s as [|c1 s]; [done|]. simpl allPlain.
  intros [Hc _]%andb_true_iff. rewrite trimRev_equation.
  rewrite (plain_no_space [c1]) by (by left).
  destruct s as [|c2 s]; [done|].
  rewrite (plain_no_space [c2; c1]) by (by right; left).
  destruct s as [|c3 s]; [done|].
  by rewrite (plain_no_space [c3; c2; c1]) by (by right; right; left).
Qed.

(** A plain string is clean. *)
Lemma plain_clean (s : string) : allPlain s = true → clean_field s.
Proof.
  intros H. destruct (allPlain_Contains s H) as [H1 H2].
  split_and!; [done..|].
  unfold TrimSpace, TrimRight. rewrite (plain_TrimLeft s H).
  rewrite plain_trimRev by (by rewrite allPlain_rev).
  apply srev_involutive.
Qed.

Lemma credential_plain (password : string) :
  allPlain (credential password) = true.
Proof.
  unfold credential. rewrite allPlain_app, EncodeToString_plain. done.
Qed.

Lemma credential_length (password : string) :
  String.length (credential password) = 33%nat.
Proof.
  unfold credential.
  by rewrite sapp_length, EncodeToString_length, SHA1_length.
Qed.

Lemma credential_clean (password : string) :
  clean_field (credential password).
Proof. apply plain_clean, credential_plain. Qed.

(** X7.  Whatever the password, even the empty one or one with colons and
    newlines, the credential that [SetPassword] stores is 33 bytes long
    (the tag and 28 bytes of base64), holds no [':'], no newline and no
    white space, and is a well-formed field. *)
Theorem credential_shape (f : passwordFile) (username password : string) :
  ∃ c, passwords (SetPassword f username password).1 !! username = Some c
    ∧ String.length c = 33%nat
    ∧ allPlain c = true
    ∧ well_formed_field c.
Proof.
  exists (credential password). rewrite SetPassword_eq. cbn [fst passwords].
  split; [apply lookup_insert_eq|].
  split; [apply credential_length|].
  split; [apply credential_plain|].
  destruct (credential_clean password) as (H1 & H2 & H3).
  split_and!; done.
Qed.

End credential_facts.

(** ** How the operations compose *)
Section operations.

Implicit Types (f : passwordFile) (u : string).

(** X6.  Whatever [ListUsers] returns, it carries no error and lists every
    username of the store exactly once and nothing else. *)
Theorem ListUsers_each_once f (r : list string * option error) :
  ListUsers f r →
  r.2 = None ∧ NoDup r.1 ∧ length r.1 = size (passwords f)
  ∧ ∀ u, u ∈ r.1 ↔ is_Some (passwords f !! u).
Proof.
  intros (l & Hr & ->). rewrite ListUsers_range_fst. simpl.
  split_and!; [done|by eapply range_NoDup| |].
  - by rewrite length_fmap, (range_length _ _ Hr).
  - intros u. rewrite list_elem_of_fmap. split.
    + intros ([u' c'] & -> & H). exists c'. by eapply range_elem_of.
    + intros [c' H]. exists (u, c'). split; [done|].
      by eapply range_elem_of.
Qed.

Lemma ListUsers_each_once_witness :
  ListUsers alice_bob (ListUsers_run alice_bob)
  ∧ (ListUsers_run alice_bob).2 = None
  ∧ NoDup (ListUsers_run alice_bob).1
  ∧ length (ListUsers_run alice_bob).1 = size (passwords alice_bob)
  ∧ ∀ u, u ∈ (ListUsers_run alice_bob).1 ↔ is_Some (passwords alice_bob !! u).
Proof.
  assert (ListUsers alice_bob (ListUsers_run alice_bob)) as H.
  { eexists. split; [unfold range|]; reflexivity. }
  split; [exact H|]. exact (ListUsers_each_once _ _ H).
Defined.

(** X8.  The last password wins: setting a password twice for one username
    gives the store of setting the second one alone, and the earlier
    state of that username (absent, deleted or set) does not matter. *)
Theorem SetPassword_last_wins f u (p1 p2 : string) :
  SetPassword (SetPassword f u p1).1 u p2 = SetPassword f u p2
  ∧ SetPassword (DeleteUser f u).1 u p2 = SetPassword f u p2.
Proof.
  rewrite !SetPassword_eq. cbn [fst passwords]. split.
  - by rewrite insert_insert_eq.
  - unfold DeleteUser. destruct (passwords f !! u) eqn:E; [|done].
    cbn [fst passwords]. by rewrite insert_delete_eq.
Qed.

(** X9.  Passwords of two different usernames can be set in either order. *)
Theorem SetPassword_commute f u u' (p p' : string) :
  u ≠ u' →
  (SetPassword (SetPassword f u p).1 u' p').1
  = (SetPassword (SetPassword f u' p').1 u p).1.
Proof.
  intros H. rewrite !SetPassword_eq. cbn [fst passwords].
  f_equal. by apply insert_insert_ne.
Qed.

Lemma SetPassword_commute_witness :
  "alice" ≠ "carol"
  ∧ (SetPassword (SetPassword alice_bob "alice" "secret").1 "carol" "pw").1
    = (SetPassword (SetPassword alice_bob "carol" "pw").1 "alice" "secret").1.
Proof.
  assert ("alice" ≠ "carol") as H. { vm_compute. congruence. }
  split; [exact H|]. exact (SetPassword_commute _ _ _ _ _ H).
Defined.

(** X10.  Setting the password of a new username and deleting the username
    again gives the store back. *)
Theorem SetPassword_DeleteUser f u (p : string) :
  passwords f !! u = None →
  DeleteUser (SetPassword f u p).1 u = (f, None).
Proof.
  intros H. rewrite SetPassword_eq. cbn [fst]. unfold DeleteUser.
  cbn [passwords]. rewrite lookup_insert_eq, delete_insert_eq.
  rewrite delete_id by done. by destruct f.
Qed.

Lemma SetPassword_DeleteUser_witness :
  passwords alice_bob !! "carol" = None
  ∧ DeleteUser (SetPassword alice_bob "carol" "secret").1 "carol"
    = (alice_bob, None).
Proof.
  assert (passwords alice_bob !! "carol" = None) as H.
  { vm_compute. reflexivity. }
  split; [exact H|]. exact (SetPassword_DeleteUser _ _ _ H).
Defined.

(** X11.  A username can be deleted once: whatever the first [DeleteUser] did,
    a second one for the same username returns ["user %q does not
    exist"] and changes nothing. *)
Theorem DeleteUser_twice f u :
  DeleteUser (DeleteUser f u).1 u
  = ((DeleteUser f u).1, Some (errNotExist u)).
Proof.
  unfold DeleteUser at 2 3. destruct (passwords f !! u) eqn:E; cbn [fst].
  - unfold DeleteUser. cbn [passwords]. by rewrite lookup_delete_eq.
  - unfold DeleteUser. by rewrite E.
Qed.

Lemma SetPassword_clean f u (p : string) :
  clean f → clean_field u → clean (SetPassword f u p).1.
Proof.
  intros Hf Hu. rewrite SetPassword_eq. cbn [fst]. unfold clean.
  cbn [passwords]. apply map_Forall_insert_2; [|done].
  split; [done|apply credential_clean].
Qed.


(** X12.  [SetPassword] keeps a store well formed when the username is a
    well-formed field, whatever the password. *)
Theorem SetPassword_keeps_well_formed f u (p : string) :
  well_formed f → well_formed_field u →
  well_formed (SetPassword f u p).1.
Proof.
  intros Hf Hu. rewrite SetPassword_eq. cbn [fst]. unfold well_formed.
  cbn [passwords]. apply map_Forall_insert_2; [|done].
  split; [done|]. destruct (credential_clean p) as (? & ? & ?).
  split_and!; done.
Qed.

Lemma SetPassword_keeps_well_formed_witness :
  well_formed alice_bob ∧ well_formed_field "carol"
  ∧ well_formed (SetPassword alice_bob "carol" "secret").1.
Proof.
  assert (well_formed alice_bob) as H1.
  { apply (bool_decide_unpack _). vm_compute. exact I. }
  assert (well_formed_field "carol") as H2.
  { apply (bool_decide_unpack _). vm_compute. exact I. }
  split; [exact H1|]. split; [exact H2|].
  exact (SetPassword_keeps_well_formed _ _ "secret" H1 H2).
Defined.

(** X13.  A password set in a store that was read from a credential file is
    not lost: when the username is clean, every output of [Bytes] for
    the new store reads back as the new store. *)
Theorem SetPassword_persists (data out : list byte) f u (p : string) :
  newPasswordFile data = (Some f, None) → clean_field u →
  Bytes (SetPassword f u p).1 out →
  newPasswordFile out = (Some (SetPassword f u p).1, None).
Proof.
  intros Hf%decoded_clean_store Hu. apply clean_roundtrip.
  by apply SetPassword_clean.
Qed.

Lemma SetPassword_persists_witness :
  newPasswordFile (text ["alice:{SHA}abc"; "bob:{SHA}def"])
  = (Some alice_bob, None)
  ∧ clean_field "carol"
  ∧ Bytes (SetPassword alice_bob "carol" "secret").1
          (Bytes_run (SetPassword alice_bob "carol" "secret").1)
  ∧ newPasswordFile (Bytes_run (SetPassword alice_bob "carol" "secret").1)
    = (Some (SetPassword alice_bob "carol" "secret").1, None).
Proof.
  assert (newPasswordFile (text ["alice:{SHA}abc"; "bob:{SHA}def"])
          = (Some alice_bob, None)) as H1.
  { vm_compute. reflexivity. }
  assert (clean_field "carol") as H2.
  { apply (bool_decide_unpack _). vm_compute. exact I. }
  assert (Bytes (SetPassword alice_bob "carol" "secret").1
                (Bytes_run (SetPassword alice_bob "carol" "secret").1)) as H3.
  { eexists. split; [unfold range|]; reflexivity. }
  split; [exact H1|]. split; [exact H2|]. split; [exact H3|].
  exact (SetPassword_persists _ _ _ _ _ H1 H2 H3).
Defined.

End operations.

(** * The command *)
Section command_facts.
Import command.

Implicit Types (o : CommandOptions) (e : Env) (t : list event)
  (f : passwordFile).

(** [getSecret] only asks and prints. *)
Lemma getSecret_trace o e :
  Forall (fun ev => (∃ ns n, ev = Get ns n) ∨ ∃ fmt a, ev = Printf fmt a)
         (getSecret o e).1.
Proof.
  assert (∀ ns n, (∃ ns' n', Get ns n = Get ns' n')
                  ∨ ∃ fmt a, Get ns n = Printf fmt a) as HG by (left; eauto).
  assert (∀ fmt a, (∃ ns' n', Printf fmt a = Get ns' n')
                   ∨ ∃ fmt' a', Printf fmt a = Printf fmt' a')
    as HP by (right; eauto).
  unfold getSecret. destruct (createSecret o); [constructor|].
  destruct (get e) as [secret| |m|err]; cbn [fst app];
    [|by repeat apply Forall_cons_2..].
  destruct (decide _); [by repeat apply Forall_cons_2|].
  destruct (Data secret !! keyName o); by repeat apply Forall_cons_2.
Qed.

Lemma getSecret_writes o e : writes (getSecret o e).1 = [].
Proof.
  pose proof (getSecret_trace o e) as H. unfold writes.
  induction H as [|ev t [(ns & n & ->)|(fmt & a & ->)] _ IH]; [done|..];
    by rewrite filter_cons_False by (by intros []).
Qed.

(** How [getSecret] ends: the process exits, or an error and no secret,
    or a secret and no error. *)
Lemma getSecret_cases o e :
  (getSecret o e).2 = Exit 1
  ∨ (∃ err, (getSecret o e).2 = Return (None, [], Some err))
  ∨ ∃ secret data, (getSecret o e).2 = Return (Some secret, data, None).
Proof.
  unfold getSecret. destruct (createSecret o); [right; right; eauto|].
  destruct (get e) as [secret| |m|err]; cbn [snd]; [|by left..].
  destruct (decide _); [right; left; eauto|].
  destruct (Data secret !! keyName o); [right; right|right; left]; eauto.
Qed.


Lemma getSecret_create o e :
  createSecret o = true →
  getSecret o e
  = ([], Return (Some {| Name := secretName o; Namespace := namespace o;
                         Type_ := SecretTypeOpaque; Data := ∅ |}, [], None)).
Proof. intros H. unfold getSecret. by rewrite H. Qed.

Lemma SetPassword_pair f u (p : string) :
  ∃ f', SetPassword f u p = (f', None)
        ∧ passwords f' = <[u := credential p]> (passwords f).
Proof. eexists. split; [apply SetPassword_eq|done]. Qed.

Lemma newPasswordFile_shape (data : list byte) :
  (∃ f, newPasswordFile data = (Some f, None))
  ∨ newPasswordFile data = (None, Some errTokens)
  ∨ ∃ u, newPasswordFile data = (None, Some (errExists u)).
Proof. apply loop_shape. Qed.

(** X16.  [Run] dereferences no nil pointer: the store of [newPasswordFile] and
    the secret of [getSecret] are there whenever the error is nil. *)
Theorem Run_never_panics o e : (Run o e).2 ≠ Panic.
Proof.
  unfold Run. pose proof (getSecret_cases o e) as Hg.
  destruct (getSecret o e) as [t r]. cbn [snd] in Hg.
  destruct Hg as [->|[[err ->]|(secret & data & ->)]]; [done..|].
  destruct (newPasswordFile_shape data) as [[f Hf]|[Hf|[u Hf]]];
    rewrite Hf; [|done..].
  destruct (listUsers o).
  { rewrite ListUsers_range_fst. done. }
  destruct (deleteUser o).
  { destruct (DeleteUser f (username o)) as [f' [err|]]; done. }
  destruct (read1 e) as [p1 [err|]]; [done|].
  destruct (read2 e) as [p2 [err|]]; [done|].
  destruct (decide _); [done|].
  destruct (SetPassword_pair f (username o) (String.string_of_list_byte p1))
    as (f' & -> & _).
  by destruct (write e).
Qed.


Ltac run_with H := rewrite H; cbv beta iota zeta.

Lemma writes_app t t' : writes (t ++ t') = writes t ++ writes t'.
Proof. apply filter_app. Qed.

Lemma writes_Println (users : list string) : writes (Println <$> users) = [].
Proof.
  induction users as [|u users IH]; [done|].
  rewrite fmap_cons. unfold writes.
  by rewrite filter_cons_False by (by intros []).
Qed.



(** X18.  [Run] changes the cluster at most once, and only so: the secret was
    got without error, its data decoded to a store, [--list-users] is
    not given, and the secret written is the one got, with the bytes of
    the store after one [DeleteUser] or one [SetPassword] under the
    key.  A failed fetch or decode, an absent user to delete, a failed
    read of the password or two different passwords write nothing. *)
Theorem Run_writes o e :
  writes (Run o e).1 = []
  ∨ ∃ (secret : Secret) (data : list byte) f f' w,
      (getSecret o e).2 = Return (Some secret, data, None)
      ∧ newPasswordFile data = (Some f, None)
      ∧ listUsers o = false
      ∧ writes (Run o e).1
        = [w (namespace o)
             (setData secret (keyName o)
                      (Bytes_range (order e (passwords f'))))]
      ∧ ((deleteUser o = true ∧ w = Update
          ∧ DeleteUser f (username o) = (f', None))
         ∨ (deleteUser o = false
            ∧ w = (if createSecret o then Create else Update)
            ∧ ∃ p1 p2, read1 e = (p1, None) ∧ read2 e = (p2, None)
                ∧ String.string_of_list_byte p1 = String.string_of_list_byte p2
                ∧ SetPassword f (username o) (String.string_of_list_byte p1)
                  = (f', None))).
Proof.
  unfold Run. pose proof (getSecret_cases o e) as Hg.
  pose proof (getSecret_writes o e) as Hw.
  destruct (getSecret o e) as [t r]. cbn [fst snd] in *.
  destruct Hg as [->|[[err ->]|(secret & data & ->)]]; [by left..|].
  destruct (newPasswordFile_shape data) as [[f Hf]|[Hf|[u Hf]]];
    rewrite Hf; [|by left..].
  destruct (listUsers o) eqn:Hl.
  { left. rewrite ListUsers_range_fst. cbn [fst].
    rewrite writes_app, Hw. unfold writes at 1.
    rewrite filter_cons_False by (by intros []). apply writes_Println. }
  destruct (deleteUser o) eqn:Hdel.
  { destruct (DeleteUser f (username o)) as [f' [err|]] eqn:Hd; [by left|].
    right. exists secret, data, f, f', Update. cbn [fst].
    rewrite writes_app, Hw. split_and!; try done. left. done. }
  destruct (read1 e) as [p1 [err|]] eqn:H1.
  { left. cbn [fst]. by rewrite writes_app, Hw. }
  destruct (read2 e) as [p2 [err|]] eqn:H2.
  { left. cbn [fst]. by rewrite !writes_app, Hw. }
  destruct (decide _) as [Hne|Heq].
  { left. cbn [fst]. by rewrite !writes_app, Hw. }
  apply dec_stable in Heq.
  destruct (SetPassword_pair f (username o) (String.string_of_list_byte p1))
    as (f' & Hs & _).
  rewrite Hs. right.
  exists secret, data, f, f', (if createSecret o then Create else Update).
  split_and!; try done.
  - destruct (write e); cbn [fst]; rewrite !writes_app, Hw;
      by destruct (createSecret o).
  - right. split_and!; try done. by exists p1, p2.
Qed.








(** X22.  When the two passwords read differ, [Run] prints ["passwords don't
    match"], the process exits with code 1, and nothing is written. *)
Theorem Run_mismatch o e (secret : option Secret) (data p1 p2 : list byte) f :
  (getSecret o e).2 = Return (secret, data, None) →
  newPasswordFile data = (Some f, None) →
  listUsers o = false → deleteUser o = false →
  read1 e = (p1, None) → read2 e = (p2, None) →
  String.string_of_list_byte p1 ≠ String.string_of_list_byte p2 →
  Run o e
  = ((getSecret o e).1 ++ prompts ++ [Println "passwords don't match"],
     Exit 1)
  ∧ writes (Run o e).1 = [].
Proof.
  intros Hg Hd Hl Hdel H1 H2 Hne.
  assert (Run o e
          = ((getSecret o e).1 ++ prompts ++ [Println "passwords don't match"],
             Exit 1)) as HR.
  { unfold Run. destruct (getSecret o e) as [t r]. cbn [fst snd] in *.
    subst r. cbv beta iota zeta. run_with Hd. run_with Hl. run_with Hdel.
    run_with H1. run_with H2. rewrite decide_True by done.
    by rewrite <- !app_assoc. }
  split; [done|]. rewrite HR. cbn [fst].
  by rewrite writes_app, getSecret_writes.
Qed.

Lemma Run_mismatch_witness :
  Run (options ["htpasswd"; "carol"] true false false) mistyped_env
  = (prompts ++ [Println "passwords don't match"], Exit 1)
  ∧ writes (Run (options ["htpasswd"; "carol"] true false false)
              mistyped_env).1 = [].
Proof.
  refine (Run_mismatch (options ["htpasswd"; "carol"] true false false)
            mistyped_env _ [] _ _ empty_file
            eq_refl eq_refl eq_refl eq_refl eq_refl eq_refl _).
  vm_compute. congruence.
Defined.

(** X23.  With [--create], and neither [--list-users] nor [--delete-user], when
    the same password is read twice, [Run] asks the cluster for nothing
    and creates one secret: opaque, with the name and namespace of the
    options, and with the one line [username:credential] under the key
    and no other key. *)
Theorem Run_create o e (p1 p2 : list byte) :
  createSecret o = true → listUsers o = false → deleteUser o = false →
  read1 e = (p1, None) → read2 e = (p2, None) →
  String.string_of_list_byte p1 = String.string_of_list_byte p2 →
  range (<[username o := credential (String.string_of_list_byte p1)]> ∅)
        (order e (<[username o := credential (String.string_of_list_byte p1)]>
                    ∅)) →
  Run o e
  = (prompts
       ++ Create (namespace o)
            {| Name := secretName o; Namespace := namespace o;
               Type_ := SecretTypeOpaque;
               Data := {[ keyName o :=
                            String.list_byte_of_string
                              (record (username o,
                                       credential
                                         (String.string_of_list_byte p1))) ]}
            |}
       :: announce (write e),
     Return (write e)).
Proof.
  intros Hc Hl Hdel H1 H2 Hp Hr.
  unfold range in Hr. rewrite insert_empty, map_to_list_singleton in Hr.
  apply Permutation_singleton_r in Hr.
  unfold Run. rewrite (getSecret_create o e Hc). cbv beta iota zeta.
  change (newPasswordFile []) with (Some empty_file, @None error).
  cbv beta iota zeta. run_with Hl. run_with Hdel. run_with H1. run_with H2.
  rewrite decide_False by (by intros []).
  rewrite SetPassword_eq. cbv beta iota zeta. rewrite Hc.
  cbn [passwords empty_file]. rewrite insert_empty, Hr.
  unfold setData. cbn [Name Namespace Type_ Data].
  rewrite insert_empty. unfold Bytes_range. cbn [foldl].
  rewrite sapp_nil_l. by destruct (write e).
Qed.

Lemma Run_create_witness :
  Run (options ["htpasswd"; "carol"] true false false) typed_env
  = (prompts
       ++ [Create "default"
             {| Name := "htpasswd"; Namespace := "default";
                Type_ := SecretTypeOpaque;
                Data := {[ "auth" :=
                             text ["carol:{SHA}5en6G6MezRroT3XKqkdPOmY/BfQ="] ]}
             |}],
     Return None).
Proof.
  refine (eq_trans (Run_create (options ["htpasswd"; "carol"] true false false)
                      typed_env _ _ eq_refl eq_refl eq_refl eq_refl eq_refl
                      eq_refl _) _).
  - unfold range. reflexivity.
  - vm_compute. reflexivity.
Defined.

Ltac no_event H :=
  lazymatch type of H with
  | _ ∨ _ => destruct H as [H|H]; no_event H
  | _ => first [done | discriminate H]
  end.

Lemma not_elem_of_trace (ev : event) t :
  Forall (fun ev' => ev' ≠ ev) t → ev ∉ t.
Proof. intros H Hin. by apply (proj1 (Forall_forall _ _) H ev Hin). Qed.

(** X24.  Without [--list-users], [Run] prints ["Password updated
    successfully"] only after a write of a new password whose error is
    not nil, and [Run] then returns that error; after a write that
    returns no error nothing is printed. *)
Theorem Run_announce o e :
  listUsers o = false →
  Println "Password updated successfully" ∈ (Run o e).1 →
  deleteUser o = false
  ∧ ∃ err, write e = Some err ∧ (Run o e).2 = Return (Some err).
Proof.
  intros Hl. unfold Run. pose proof (getSecret_cases o e) as Hg.
  pose proof (getSecret_trace o e) as Ht.
  assert (Println "Password updated successfully" ∉ (getSecret o e).1) as Hn.
  { apply not_elem_of_trace. eapply Forall_impl; [exact Ht|]. simpl.
    intros ev [(? & ? & ->)|(? & ? & ->)]; done. }
  destruct (getSecret o e) as [t r]. cbn [fst snd] in *.
  destruct Hg as [->|[[err ->]|(secret & data & ->)]]; [done..|].
  destruct (newPasswordFile_shape data) as [[f Hf]|[Hf|[u Hf]]];
    rewrite Hf; [|done..].
  rewrite Hl. destruct (deleteUser o).
  { destruct (DeleteUser f (username o)) as [f' [err|]]; [done|].
    cbn [fst]. rewrite elem_of_app, list_elem_of_singleton.
    intros H. exfalso. no_event H. }
  destruct (read1 e) as [p1 [err|]].
  { cbn [fst]. rewrite elem_of_app, !elem_of_cons, elem_of_nil.
    intros H. exfalso. no_event H. }
  destruct (read2 e) as [p2 [err|]].
  { cbn [fst]. rewrite !elem_of_app, !elem_of_cons, elem_of_nil.
    intros H. exfalso. no_event H. }
  destruct (decide _).
  { cbn [fst]. rewrite !elem_of_app, !elem_of_cons, !elem_of_nil.
    intros H. exfalso. no_event H. }
  rewrite SetPassword_eq. cbv beta iota zeta.
  destruct (write e) as [err|]; [by eauto|].
  cbn [fst]. rewrite !elem_of_app, !elem_of_cons, !elem_of_nil.
  intros H. exfalso. destruct (createSecret o); no_event H.
Qed.

Lemma Run_announce_witness :
  listUsers (options ["htpasswd"; "carol"] true false false) = false
  ∧ Println "Password updated successfully"
    ∈ (Run (options ["htpasswd"; "carol"] true false false) refused_env).1
  ∧ ∃ err, write refused_env = Some err
      ∧ (Run (options ["htpasswd"; "carol"] true false false) refused_env).2
        = Return (Some err).
Proof.
  assert (Println "Password updated successfully"
    ∈ (Run (options ["htpasswd"; "carol"] true false false) refused_env).1)
    as H.
  { vm_compute. do 6 right. left. }
  split; [reflexivity|]. split; [exact H|].
  exact (proj2 (Run_announce
                  (options ["htpasswd"; "carol"] true false false)
                  refused_env eq_refl H)).
Defined.

(** [Complete] sets the arguments and the namespace and nothing else. *)
Lemma Complete_keeps o (a : list string) (c : ConfigEnv) :
  args (Complete o a c).1 = a
  ∧ listUsers (Complete o a c).1 = listUsers o
  ∧ deleteUser (Complete o a c).1 = deleteUser o
  ∧ createSecret (Complete o a c).1 = createSecret o
  ∧ keyName (Complete o a c).1 = keyName o
  ∧ secretName (Complete o a c).1 = secretName o
  ∧ username (Complete o a c).1 = username o.
Proof.
  unfold Complete. destruct (rawConfig c) as [cfg [err|]]; [done|].
  destruct (Contexts cfg !! CurrentContext cfg) as [ctx|]; [|done].
  destruct (flagNamespace c) as [ns|]; [destruct (decide (ns ≠ ""))|];
    destruct (restConfig c); try done; by destruct (newClientset c).
Qed.

(** X27.  With no argument, with three or more, or with one argument and no
    [--list-users], the command ends with ["secret and username are
    required"] before it asks the cluster or the terminal for anything
    or prints. *)
Theorem RunE_bad_args o (a : list string) (c : ConfigEnv) e :
  (Complete o a c).2 = None →
  ¬ ((length a = 1%nat ∧ listUsers o = true) ∨ length a = 2%nat) →
  RunE o a c e = ([], Return (Some errRequired)).
Proof.
  intros Hc Ha. unfold RunE.
  destruct (Complete_keeps o a c) as (H1 & H2 & _).
  destruct (Complete o a c) as [o' err]. cbn [fst snd] in *. subst err.
  unfold Validate. rewrite H1, H2.
  destruct (Nat.eqb_spec (length a) 1) as [E1|E1];
    destruct (listUsers o) eqn:El; cbn [andb];
    destruct (Nat.eqb_spec (length a) 2) as [E2|E2];
    try done; exfalso; apply Ha; auto.
Qed.

Lemma RunE_bad_args_witness :
  (Complete (options [] false true false) ["htpasswd"] kube_env).2 = None
  ∧ ¬ ((length ["htpasswd"] = 1%nat
        ∧ listUsers (options [] false true false) = true)
       ∨ length ["htpasswd"] = 2%nat)
  ∧ RunE (options [] false true false) ["htpasswd"] kube_env typed_env
    = ([], Return (Some errRequired)).
Proof.
  assert ((Complete (options [] false true false) ["htpasswd"] kube_env).2
          = None) as H1.
  { vm_compute. reflexivity. }
  assert (¬ ((length ["htpasswd"] = 1%nat
              ∧ listUsers (options [] false true false) = true)
             ∨ length ["htpasswd"] = 2%nat)) as H2.
  { vm_compute. intros [[_ H]|H]; discriminate H. }
  split; [exact H1|]. split; [exact H2|].
  exact (RunE_bad_args _ _ _ typed_env H1 H2).
Defined.

Lemma Validate_two o (s u : string) :
  args o = [s; u] →
  Validate o = (set_username u (set_secretName s o), None).
Proof. intros H. unfold Validate. by rewrite H. Qed.

(** X28.  With two arguments and a kubeconfig that loads, the command is [Run]
    with the first argument as the name of the secret and the second as
    the username; the namespace is the one of the [--namespace] flag
    when that is given and not empty, and else the one of the current
    context. *)
Theorem RunE_two_args o (s u : string) (c : ConfigEnv) e
    (cfg : Config) (ctx : Context) :
  rawConfig c = (cfg, None) →
  Contexts cfg !! CurrentContext cfg = Some ctx →
  restConfig c = None → newClientset c = None →
  RunE o [s; u] c e
  = Run {| args := [s; u];
           namespace :=
             match flagNamespace c with
             | Some ns => if decide (ns = "") then ctxNamespace ctx else ns
             | None => ctxNamespace ctx
             end;
           secretName := s; username := u; keyName := keyName o;
           createSecret := createSecret o; deleteUser := deleteUser o;
           listUsers := listUsers o |} e.
Proof.
  intros H1 H2 H3 H4. unfold RunE, Complete.
  rewrite H1, H2, H3, H4. cbv beta iota zeta.
  destruct (flagNamespace c) as [ns|];
    [destruct (decide (ns ≠ "")) as [Hn|Hn]|].
  - rewrite decide_False by done.
    by rewrite (Validate_two _ s u) by reflexivity.
  - apply dec_stable in Hn. subst ns.
    by rewrite (Validate_two _ s u) by reflexivity.
  - by rewrite (Validate_two _ s u) by reflexivity.
Qed.

Lemma RunE_two_args_witness :
  RunE (options [] true false false) ["htpasswd"; "carol"] kube_env typed_env
  = Run (options ["htpasswd"; "carol"] true false false) typed_env.
Proof.
  exact (RunE_two_args (options [] true false false) "htpasswd" "carol"
           kube_env typed_env _ _ eq_refl eq_refl eq_refl eq_refl).
Defined.

End command_facts.

(** ** Usernames that the file format cannot hold *)
Section unclean_usernames.

Implicit Types (f : passwordFile) (u s : string).

(** X14.  A password set for a username that is not clean (it holds a [':'] or
    a newline, or trimming changes it) is never read back: no bytes at
    all decode to the store that [SetPassword] leaves. *)
Theorem SetPassword_unclean_lost f u (p : string) (out : list byte) :
  ¬ clean_field u →
  newPasswordFile out ≠ (Some (SetPassword f u p).1, None).
Proof.
  intros Hu Hd%decoded_clean_store. apply Hu.
  rewrite SetPassword_eq in Hd. cbn [fst] in Hd.
  by destruct (Hd u (credential p) (lookup_insert_eq _ _ _)).
Qed.

Lemma SetPassword_unclean_lost_witness :
  ¬ clean_field " carol"
  ∧ newPasswordFile (Bytes_run (SetPassword alice_bob " carol" "secret").1)
    ≠ (Some (SetPassword alice_bob " carol" "secret").1, None).
Proof.
  assert (¬ clean_field " carol") as H.
  { intros (_ & _ & H). vm_compute in H. congruence. }
  split; [exact H|]. exact (SetPassword_unclean_lost _ _ _ _ H).
Defined.

Lemma Count_app (a b : string) (c : ascii) :
  Count (a +:+ b) c = (Count a c + Count b c)%nat.
Proof.
  induction a as [|x a IH]; [done|].
  rewrite sapp_cons. simpl. rewrite IH. lia.
Qed.

Lemma Count_rev s (c : ascii) : Count (String.rev s) c = Count s c.
Proof.
  induction s as [|x s IH]; [done|].
  rewrite srev_cons, Count_app, IH. simpl. lia.
Qed.

Lemma white_Count s : white s → Count s colon = 0%nat.
Proof.
  induction 1 as [|c p Hc _ IH|c1 c2 p Hc _ IH|c1 c2 c3 p Hc _ IH];
    [done|..]; apply space_bytes_colon in Hc;
    repeat (apply Forall_cons in Hc as [? Hc]); simpl;
    repeat match goal with H : Ascii.eqb _ colon = false |- _ =>
             rewrite H; clear H end; done.
Qed.

(** Trimming drops no colon. *)
Lemma Count_TrimSpace s : Count (TrimSpace s) colon = Count s colon.
Proof.
  destruct (TrimSpace_split s) as (p & q & Hp & Hq & Hs).
  rewrite Hs at 2. rewrite !Count_app.
  rewrite (white_Count p Hp), (white_Count q Hq). lia.
Qed.

Lemma Contains_Count s (c : ascii) :
  Contains s c = true → (1 ≤ Count s c)%nat.
Proof.
  induction s as [|x s IH]; [done|]. simpl.
  destruct (Ascii.eqb x c); simpl; [lia|]. intros H. specialize (IH H). lia.
Qed.

(** The line of a username with a colon has three fields or more. *)
Lemma colon_line_malformed u (c : string) :
  Contains u colon = true → malformed (line (u, c)).
Proof.
  intros Hu. split; [apply line_not_blank|].
  unfold fields. rewrite Split_length, Count_TrimSpace. unfold line.
  rewrite Count_app. simpl.
  pose proof (Contains_Count _ _ Hu). lia.
Qed.

Lemma loop_clean_lines (es : list (string * string)) (rest : list string) :
  Forall (fun kv => clean_field kv.1 ∧ clean_field kv.2) es →
  NoDup es.*1 →
  newPasswordFile_loop ((line <$> es) ++ rest) empty_file
  = newPasswordFile_loop rest {| passwords := list_to_map es |}.
Proof.
  intros Hes Hn. rewrite loop_app.
  destruct (entries_clean_lines es Hes) as [H1 H2].
  apply Forall_app in H1 as [H1 _].
  rewrite entries_app, (entries_blank "" []), entries_nil, app_nil_r in H2
    by apply blank_nil.
  rewrite loop_ok; rewrite ?H2; try done.
  cbn [passwords empty_file]. by rewrite (right_id_L ∅ (∪)).
Qed.

(** X15.  A username with a colon makes the file unreadable: after
    [SetPassword] for such a username (without newline) in a store read
    from a file, every output of [Bytes] is refused by [newPasswordFile]
    with ["invalid number of tokens"]. *)
Theorem SetPassword_colon_unreadable
    (data out : list byte) f u (p : string) :
  newPasswordFile data = (Some f, None) →
  Contains u colon = true → Contains u LF = false →
  Bytes (SetPassword f u p).1 out →
  newPasswordFile out = (None, Some errTokens).
Proof.
  intros Hf%decoded_clean_store Hc Hl (es & Hr & ->).
  rewrite SetPassword_eq in Hr. cbn [fst passwords] in Hr.
  assert ((u, credential p) ∈ es) as Hin.
  { eapply range_elem_of; [done|]. apply lookup_insert_eq. }
  apply list_elem_of_split in Hin as (es1 & es2 & ->).
  pose proof (range_NoDup _ _ Hr) as Hn.
  rewrite fmap_app, fmap_cons in Hn. cbn [fst] in Hn.
  apply NoDup_app in Hn as (Hn1 & Hn12 & Hn2).
  apply NoDup_cons in Hn2 as [Hu2 Hn2].
  assert (∀ kv, kv ∈ es1 ++ es2 → clean_field kv.1 ∧ clean_field kv.2) as Hcl.
  { intros [k v] Hkv. apply (Hf k v).
    assert ((k, v) ∈ es1 ++ (u, credential p) :: es2) as Hkv'.
    { rewrite elem_of_app, elem_of_cons. rewrite elem_of_app in Hkv. tauto. }
    apply (range_elem_of _ _ _ _ Hr) in Hkv'.
    rewrite lookup_insert_ne in Hkv'; [done|]. intros <-.
    apply elem_of_app in Hkv as [Hkv|Hkv].
    - apply (Hn12 u); [by apply (list_elem_of_fmap_2 fst) in Hkv|by left].
    - apply Hu2. by apply (list_elem_of_fmap_2 fst) in Hkv. }
  unfold newPasswordFile. rewrite Bytes_range_cat, Split_records.
  - rewrite fmap_app, fmap_cons, <- app_assoc, <- app_comm_cons.
    rewrite loop_clean_lines; [|apply Forall_forall; intros kv Hkv;
                                 apply Hcl, elem_of_app; by left|done].
    apply loop_malformed. by apply colon_line_malformed.
  - apply Forall_forall. intros [k v] Hkv. cbn [fst snd].
    apply elem_of_app in Hkv as [Hkv|[Hkv|Hkv]%elem_of_cons].
    + destruct (Hcl (k, v)) as [(_ & ? & _) (_ & ? & _)];
        [apply elem_of_app; by left|done].
    + injection Hkv as -> ->. split; [done|].
      by destruct (credential_clean p) as (_ & ? & _).
    + destruct (Hcl (k, v)) as [(_ & ? & _) (_ & ? & _)];
        [apply elem_of_app; by right|done].
Qed.

Lemma SetPassword_colon_unreadable_witness :
  newPasswordFile (text ["alice:{SHA}abc"; "bob:{SHA}def"])
  = (Some alice_bob, None)
  ∧ Contains "a:b" colon = true ∧ Contains "a:b" LF = false
  ∧ newPasswordFile (Bytes_run (SetPassword alice_bob "a:b" "secret").1)
    = (None, Some errTokens).
Proof.
  assert (newPasswordFile (text ["alice:{SHA}abc"; "bob:{SHA}def"])
          = (Some alice_bob, None)) as H1.
  { vm_compute. reflexivity. }
  assert (Bytes (SetPassword alice_bob "a:b" "secret").1
                (Bytes_run (SetPassword alice_bob "a:b" "secret").1)) as H2.
  { eexists. split; [unfold range|]; reflexivity. }
  split; [exact H1|]. split; [reflexivity|]. split; [reflexivity|].
  exact (SetPassword_colon_unreadable _ _ _ "a:b" "secret" H1
           eq_refl eq_refl H2).
Defined.

End unclean_usernames.

(** ** What [newPasswordFile] does not look at *)
Section decode_ignores.

Implicit Types (l : string) (ls : list string) (f : passwordFile).

Lemma loop_trimmed ls f :
  newPasswordFile_loop (TrimSpace <$> ls) f = newPasswordFile_loop ls f.
Proof.
  revert f. induction ls as [|l ls IH]; intros f; [done|].
  rewrite fmap_cons. cbn [newPasswordFile_loop].
  rewrite TrimSpace_idem, !IH.
  destruct (decide (TrimSpace l = "")); [done|].
  destruct (decide _); [done|].
  by destruct (passwords f !! _).
Qed.

(** X4.  White space at the ends of a line is not looked at: a text and the
    text of its trimmed lines give the same result, store or error. *)
Theorem decode_ignores_padding ls :
  Forall (fun l => Contains l LF = false) ls →
  newPasswordFile (text (TrimSpace <$> ls)) = newPasswordFile (text ls).
Proof.
  intros H.
  assert (Forall (fun l => Contains l LF = false) (TrimSpace <$> ls)) as H'.
  { apply Forall_fmap. eapply Forall_impl; [exact H|]. simpl.
    intros l. apply Contains_TrimSpace_false. }
  unfold newPasswordFile. rewrite !Split_text by done.
  assert ((TrimSpace <$> ls) ++ [""] = TrimSpace <$> (ls ++ [""])) as ->.
  { by rewrite fmap_app. }
  apply loop_trimmed.
Qed.

Lemma decode_ignores_padding_witness :
  Forall (fun l => Contains l LF = false)
         [" alice : {SHA}abc" +:+ String "013" ""; "  bob:{SHA}def  "]
  ∧ newPasswordFile
      (text (TrimSpace <$> [" alice : {SHA}abc" +:+ String "013" "";
                            "  bob:{SHA}def  "]))
    = newPasswordFile (text [" alice : {SHA}abc" +:+ String "013" "";
                             "  bob:{SHA}def  "]).
Proof.
  assert (Forall (fun l => Contains l LF = false)
            [" alice : {SHA}abc" +:+ String "013" ""; "  bob:{SHA}def  "])
    as H.
  { repeat constructor. }
  split; [exact H|]. exact (decode_ignores_padding _ H).
Defined.

(** X5.  Blank lines are not looked at: a blank line more, wherever it
    stands, gives the same result, store or error. *)
Theorem decode_ignores_blank (pre post : list string) (b : string) :
  Forall (fun l => Contains l LF = false) (pre ++ b :: post) → blank b →
  newPasswordFile (text (pre ++ b :: post))
  = newPasswordFile (text (pre ++ post)).
Proof.
  intros H Hb.
  assert (Forall (fun l => Contains l LF = false) (pre ++ post)) as H'.
  { apply Forall_app in H as [H1 H2%Forall_cons_1]. apply Forall_app.
    tauto. }
  unfold newPasswordFile. rewrite !Split_text by done.
  rewrite <- !app_assoc, <- app_comm_cons, !loop_app.
  destruct (newPasswordFile_loop pre _) as [[f|] err]; [|done].
  by rewrite loop_blank.
Qed.

Lemma decode_ignores_blank_witness :
  Forall (fun l => Contains l LF = false)
         (["alice:{SHA}abc"] ++ "   " :: ["bob:{SHA}def"])
  ∧ blank "   "
  ∧ newPasswordFile (text (["alice:{SHA}abc"] ++ "   " :: ["bob:{SHA}def"]))
    = newPasswordFile (text (["alice:{SHA}abc"] ++ ["bob:{SHA}def"])).
Proof.
  assert (Forall (fun l => Contains l LF = false)
            (["alice:{SHA}abc"] ++ "   " :: ["bob:{SHA}def"])) as H1.
  { repeat constructor. }
  assert (blank "   ") as H2. { reflexivity. }
  split; [exact H1|]. split; [exact H2|].
  exact (decode_ignores_blank _ _ _ H1 H2).
Defined.

End decode_ignores.

(** ** [Run] when the secret cannot be used *)
Section run_stops.
Import command.

Implicit Types (o : CommandOptions) (e : Env).

(** X25.  When the secret is not to be created and [Get] returns an error,
    [Run] prints one message and the process exits with code 1; no
    error is returned, no password is asked for and nothing is written. *)
Theorem Run_get_fails o e :
  createSecret o = false → (∀ secret, get e ≠ GetOk secret) →
  ∃ fmt a,
    Run o e
    = ([Get (namespace o) (secretName o); Printf fmt a], Exit 1).
Proof.
  intros Hc Hg. unfold Run, getSecret. rewrite Hc.
  destruct (get e) as [secret| |m|err]; [by destruct (Hg secret)|..];
    by eexists _, _.
Qed.

Lemma Run_get_fails_witness :
  createSecret (options ["htpasswd"; "carol"] false false false) = false
  ∧ (∀ secret, get mistyped_env ≠ GetOk secret)
  ∧ ∃ fmt a,
      Run (options ["htpasswd"; "carol"] false false false) mistyped_env
      = ([Get "default" "htpasswd"; Printf fmt a], Exit 1).
Proof.
  assert (∀ secret, get mistyped_env ≠ GetOk secret) as H.
  { intros secret. vm_compute. congruence. }
  split; [reflexivity|]. split; [exact H|].
  exact (Run_get_fails (options ["htpasswd"; "carol"] false false false)
           mistyped_env eq_refl H).
Defined.



End run_stops.
